(** * Daily-poetry widget plugin: fetch/retry worker and display controller

    A shallow embedding of [main.py]: the background worker
    [PoetryFetchThread.run], the payload mapping [Plugin.handle_success],
    the panel update [Plugin.update_widget_content], the scroll tick
    [Plugin.auto_scroll] and the timer-driven control flow of [Plugin].

    Python values are an inductive type, dictionaries are finite maps,
    the toolkit objects the plugin touches live in a store addressed by
    object identity, and everything the program does to the outside
    (requests, sleeps, log lines, emitted signals, scheduled callbacks) is
    recorded as data so that it can be counted and ordered. *)

From Stdlib Require Import ZArith Lia Floats.
From stdpp Require Import gmap strings list fin_maps.

Set Warnings "-register-all".
Open Scope Z_scope.

(** ** Python values *)

Module Py.

(** What [response.json()] can return, and what a [dict.get] can yield. *)
Inductive pyval :=
| PNone
| PBool (b : bool)
| PInt (z : Z)
| PFloat (f : float)
| PStr (s : string)
| PList (l : list pyval)
| PDict (m : gmap string pyval).

(** Exceptions the modelled code can see. *)
Inductive exn :=
| ConnectionError (msg : string)   (* raised by [requests.get] *)
| HTTPError (status : Z)           (* raised by [raise_for_status] *)
| JSONDecodeError                  (* raised by [response.json] *)
| AttributeError (name : string)
| TypeError
| RuntimeError.

(** Truth value of an object, as tested by [if x:] and [not x]. *)
Definition truthy (v : pyval) : bool :=
  match v with
  | PNone => false
  | PBool b => b
  | PInt z => negb (z =? 0)
  | PFloat f => negb (PrimFloat.eqb f PrimFloat.zero)
  | PStr s => negb (String.eqb s "")
  | PList l => match l with [] => false | _ :: _ => true end
  | PDict m => negb (bool_decide (m = ∅))
  end.

(** [d.get(key, default)] on a dictionary. *)
Definition dict_get (d : gmap string pyval) (key : string) (default : pyval)
  : pyval :=
  match d !! key with
  | Some v => v
  | None => default
  end.

(** [v.get(key, default)] on an arbitrary object: only dictionaries have
    the method. *)
Definition py_get (v : pyval) (key : string) (default : pyval)
  : exn + pyval :=
  match v with
  | PDict d => inr (dict_get d key default)
  | _ => inl (AttributeError "get")
  end.

(** [a + b] with a string on the left. *)
Definition str_add (a : string) (b : pyval) : exn + pyval :=
  match b with
  | PStr s => inr (PStr (a +:+ s))
  | _ => inl TypeError
  end.

End Py.
Import Py.

(** ** The worker: [PoetryFetchThread] *)

Module PoetryFetchThread.

(** What the network gives back for one [requests.get]. *)
Inductive reply :=
| NoResponse (err : string)
    (* the call itself raised: no connection, DNS failure, ... *)
| Response (status : Z) (body : option pyval).
    (* a response arrived; [body] is its JSON decoding, [None] when the
       body is not JSON *)

(** [response.raise_for_status()] raises for 4xx and 5xx. *)
Definition raises_for_status (status : Z) : bool :=
  (400 <=? status) && (status <? 600).

(** What the worker does that can be observed from outside. *)
Inductive event :=
| Request                                   (* requests.get(API_URL, ...) *)
| LogError (e : exn)                        (* logger.error(...) *)
| Sleep (secs : Z)                          (* time.sleep(secs) *)
| fetch_success (data : gmap string pyval)  (* fetch_success.emit(data) *)
| fetch_failed.                             (* fetch_failed.emit() *)

(** Outcome of the body of the [try] for one reply. *)
Inductive attempt :=
| Emitted (data : gmap string pyval)  (* emitted [fetch_success], returns *)
| Falsy                               (* [data] was falsy: falls through *)
| Caught (e : exn).                   (* the [except] clause logged [e] *)

(** [fetch_success] is declared [pyqtSignal(dict)]: emitting anything but a
    dictionary raises [TypeError], inside the [try]. *)
Definition emit_success (data : pyval) : exn + gmap string pyval :=
  match data with
  | PDict d => inr d
  | _ => inl TypeError
  end.

Definition try_block (r : reply) : attempt :=
  match r with
  | NoResponse err => Caught (ConnectionError err)
  | Response status body =>
      if raises_for_status status then Caught (HTTPError status)
      else match body with
           | None => Caught JSONDecodeError
           | Some json =>
               match py_get json "data" (PDict ∅) with
               | inl e => Caught e
               | inr data =>
                   if truthy data then
                     match emit_success data with
                     | inr d => Emitted d
                     | inl e => Caught e
                     end
                   else Falsy
               end
           end
  end.

Definition max_retries : nat := 3.
Definition retry_delay : Z := 2.

(** The [while] loop of [run], entered with the given [retry_count].  The
    [retry_count]-th request is answered by [net retry_count].  [fuel]
    bounds the number of iterations; [None] means it ran out. *)
Fixpoint run_loop (fuel : nat) (net : nat → reply) (retry_count : nat)
  : option (list event) :=
  match fuel with
  | O => None
  | S fuel' =>
      if (retry_count <? max_retries)%nat then
        match try_block (net retry_count) with
        | Emitted d => Some [Request; fetch_success d]
        | Falsy =>
            rest ← run_loop fuel' net (S retry_count);
            Some (Request :: Sleep retry_delay :: rest)
        | Caught e =>
            rest ← run_loop fuel' net (S retry_count);
            Some (Request :: LogError e :: Sleep retry_delay :: rest)
        end
      else Some [fetch_failed]
  end.

Definition run (net : nat → reply) : option (list event) :=
  run_loop (S max_retries) net 0.

(** Classifiers used to count and project events. *)
Definition is_request (e : event) : bool :=
  match e with Request => true | _ => false end.
Definition is_sleep (e : event) : bool :=
  match e with Sleep _ => true | _ => false end.
Definition is_log (e : event) : bool :=
  match e with LogError _ => true | _ => false end.
Definition is_signal (e : event) : bool :=
  match e with fetch_success _ | fetch_failed => true | _ => false end.

Definition requests (tr : list event) : nat := length (filter is_request tr).
Definition sleeps (tr : list event) : nat := length (filter is_sleep tr).
Definition signals (tr : list event) : list event := filter is_signal tr.
Definition unlogged (tr : list event) : list event :=
  filter (λ e, negb (is_log e)) tr.

(** An attempt is a failure when it does not emit. *)
Definition failed (r : reply) : Prop := ∀ d, try_block r ≠ Emitted d.

(** A reply that carries a non-empty [data] dictionary. *)
Definition carries (r : reply) (d : gmap string pyval) : Prop :=
  ∃ status body,
    r = Response status (Some (PDict body)) ∧
    raises_for_status status = false ∧
    body !! "data" = Some (PDict d) ∧
    d ≠ ∅.

(** One failed turn of the loop: the request, the log line if the
    [except] clause ran, and the sleep. *)
Definition failed_turn (t : list event) : bool :=
  match t with
  | [Request; Sleep secs] => secs =? retry_delay
  | [Request; LogError _; Sleep secs] => secs =? retry_delay
  | _ => false
  end.

(** A 2xx reply whose JSON object has no ["data"], or an empty one. *)
Definition no_data (r : reply) : Prop :=
  ∃ status body,
    r = Response status (Some (PDict body)) ∧
    200 ≤ status < 300 ∧
    (body !! "data" = None ∨ body !! "data" = Some (PDict ∅)).

End PoetryFetchThread.

(** ** Toolkit objects *)

Module Qt.

(** [SmoothScrollBar]: a scroll bar whose [setValue] animates. *)
Record SmoothScrollBar := {
  sb_maximum : Z;              (* maximum() *)
  sb_value : Z;                (* value() *)
  sb_ani : option (Z * Z);     (* start and end value of the animation *)
}.

(** [SmoothScrollBar.setValue]. *)
Definition setValue (sb : SmoothScrollBar) (value : Z) : SmoothScrollBar :=
  if value =? sb_value sb then sb
  else {| sb_maximum := sb_maximum sb;
          sb_value := sb_value sb;
          sb_ani := Some (sb_value sb, value) |}.

(** The text of a label.  The attribution line is an f-string over three
    values that need not be strings; they are kept as they are. *)
Inductive label_text :=
| Plain (s : string)
| Attribution (dynasty author title : pyval).

Record QLabel := {
  lb_text : label_text;
  lb_font_size : Z;
  lb_color : string;
  lb_bold : bool;
  lb_word_wrap : bool;
}.

(** A box layout: its spacing and its items, in order. *)
Record Layout (A : Type) := {
  spacing : Z;
  items : list A;
}.
Arguments spacing {A} _.
Arguments items {A} _.

(** [SmoothScrollArea]: its vertical bar and the labels of its content
    widget. *)
Record SmoothScrollArea := {
  vScrollBar : option SmoothScrollBar;
  sa_resizable : bool;
  sa_content : Layout QLabel;
}.

(** [scroll_area.verticalScrollBar()]. *)
Definition verticalScrollBar (sa : SmoothScrollArea) : option SmoothScrollBar :=
  vScrollBar sa.

(** What a horizontal layout of the host widget can hold. *)
Inductive item :=
| ScrollAreaItem (sa : SmoothScrollArea)
| WidgetItem (name : string)     (* any other child widget *)
| SpacerItem.                    (* an item without a widget *)

(** The host's widget for this plugin: the layout named ['contentLayout'],
    if it has one.  The scroll areas of the widget are those placed in
    that layout. *)
Record QWidget := {
  contentLayout : option (Layout item);
}.

(** [widget.findChild(SmoothScrollArea)]: the first one there is. *)
Fixpoint first_scroll_area (its : list item) : option SmoothScrollArea :=
  match its with
  | [] => None
  | ScrollAreaItem sa :: _ => Some sa
  | _ :: rest => first_scroll_area rest
  end.

Definition findChild_SmoothScrollArea (w : QWidget) : option SmoothScrollArea :=
  match contentLayout w with
  | Some l => first_scroll_area (items l)
  | None => None
  end.

(** Writing back the scroll area found by [first_scroll_area]. *)
Fixpoint put_first_scroll_area (sa' : SmoothScrollArea) (its : list item)
  : list item :=
  match its with
  | [] => []
  | ScrollAreaItem _ :: rest => ScrollAreaItem sa' :: rest
  | it :: rest => it :: put_first_scroll_area sa' rest
  end.

Definition put_scroll_area (sa' : SmoothScrollArea) (w : QWidget) : QWidget :=
  match contentLayout w with
  | Some l =>
      {| contentLayout :=
           Some {| spacing := spacing l;
                   items := put_first_scroll_area sa' (items l) |} |}
  | None => w
  end.

(** The texts the widget shows: the labels of the scroll areas in its
    content layout, in order. *)
Definition item_texts (it : item) : list label_text :=
  match it with
  | ScrollAreaItem sa => map lb_text (items (sa_content sa))
  | _ => []
  end.

Definition shown_texts (w : QWidget) : list label_text :=
  match contentLayout w with
  | Some l => flat_map item_texts (items l)
  | None => []
  end.

End Qt.
Import Qt.

(** ** The controller: [Plugin] *)

Module Plugin.

Definition WIDGET_CODE : string := "daily_poetry.ui".
Definition WIDGET_NAME : string := "今日诗词 | LaoShui".
Definition WIDGET_WIDTH : Z := 360.

(** An instance attribute: Python raises [AttributeError] when one is read
    before it was ever assigned. *)
Inductive attr (A : Type) :=
| Unset
| Assigned (a : A).
Arguments Unset {A}.
Arguments Assigned {A} _.

(** The dictionary handed to [_update_ui]; it always has these five keys. *)
Record Content := {
  content : pyval;
  author : pyval;
  title : pyval;
  dynasty : pyval;
  translate : pyval;
}.

(** What a [QTimer.singleShot] can be asked to call. *)
Inductive callback :=
| call_update_widget_content (c : Content)   (* the lambda of [_update_ui] *)
| call_update_poetry.

Inductive level := ERROR | SUCCESS.

(** What the controller does to the outside, in the order it does it. *)
Inductive action :=
| Log (lvl : level) (msg : string)
| register_widget (code name : string) (width : Z)
| change_widget_content (code title text : string)
| singleShot (msec : Z) (cb : callback)
| worker_thread_start.

Record State := {
  (* attributes of the Plugin object *)
  test_widget : attr (option nat);
  scroll_position : Z;
  (* the host: what [method.get_widget(WIDGET_CODE)] returns, the live
     widget objects by identity, the theme, and the maximum the toolkit
     gives to the vertical bar of a freshly laid out panel *)
  host_widget : option nat;
  objects : gmap nat QWidget;
  dark_theme : bool;
  panel_extent : Z;
  (* the event loop: clock in milliseconds, single shots waiting with the
     time they are due, the next timeouts of the two interval timers, and
     the start times of the workers whose signal is still to come *)
  now : Z;
  single_shots : list (Z * callback);
  scroll_due : Z;
  refresh_due : Z;
  workers : list Z;
  (* everything done so far *)
  journal : list action;
}.

Definition set_test_widget (v : attr (option nat)) (s : State) : State :=
  {| test_widget := v; scroll_position := scroll_position s;
     host_widget := host_widget s; objects := objects s;
     dark_theme := dark_theme s; panel_extent := panel_extent s;
     now := now s; single_shots := single_shots s;
     scroll_due := scroll_due s; refresh_due := refresh_due s;
     workers := workers s; journal := journal s |}.

Definition set_scroll_position (v : Z) (s : State) : State :=
  {| test_widget := test_widget s; scroll_position := v;
     host_widget := host_widget s; objects := objects s;
     dark_theme := dark_theme s; panel_extent := panel_extent s;
     now := now s; single_shots := single_shots s;
     scroll_due := scroll_due s; refresh_due := refresh_due s;
     workers := workers s; journal := journal s |}.

Definition set_objects (v : gmap nat QWidget) (s : State) : State :=
  {| test_widget := test_widget s; scroll_position := scroll_position s;
     host_widget := host_widget s; objects := v;
     dark_theme := dark_theme s; panel_extent := panel_extent s;
     now := now s; single_shots := single_shots s;
     scroll_due := scroll_due s; refresh_due := refresh_due s;
     workers := workers s; journal := journal s |}.

Definition set_now (v : Z) (s : State) : State :=
  {| test_widget := test_widget s; scroll_position := scroll_position s;
     host_widget := host_widget s; objects := objects s;
     dark_theme := dark_theme s; panel_extent := panel_extent s;
     now := v; single_shots := single_shots s;
     scroll_due := scroll_due s; refresh_due := refresh_due s;
     workers := workers s; journal := journal s |}.

Definition set_single_shots (v : list (Z * callback)) (s : State) : State :=
  {| test_widget := test_widget s; scroll_position := scroll_position s;
     host_widget := host_widget s; objects := objects s;
     dark_theme := dark_theme s; panel_extent := panel_extent s;
     now := now s; single_shots := v;
     scroll_due := scroll_due s; refresh_due := refresh_due s;
     workers := workers s; journal := journal s |}.

Definition set_scroll_due (v : Z) (s : State) : State :=
  {| test_widget := test_widget s; scroll_position := scroll_position s;
     host_widget := host_widget s; objects := objects s;
     dark_theme := dark_theme s; panel_extent := panel_extent s;
     now := now s; single_shots := single_shots s;
     scroll_due := v; refresh_due := refresh_due s;
     workers := workers s; journal := journal s |}.

Definition set_refresh_due (v : Z) (s : State) : State :=
  {| test_widget := test_widget s; scroll_position := scroll_position s;
     host_widget := host_widget s; objects := objects s;
     dark_theme := dark_theme s; panel_extent := panel_extent s;
     now := now s; single_shots := single_shots s;
     scroll_due := scroll_due s; refresh_due := v;
     workers := workers s; journal := journal s |}.

Definition set_workers (v : list Z) (s : State) : State :=
  {| test_widget := test_widget s; scroll_position := scroll_position s;
     host_widget := host_widget s; objects := objects s;
     dark_theme := dark_theme s; panel_extent := panel_extent s;
     now := now s; single_shots := single_shots s;
     scroll_due := scroll_due s; refresh_due := refresh_due s;
     workers := v; journal := journal s |}.

Definition set_journal (v : list action) (s : State) : State :=
  {| test_widget := test_widget s; scroll_position := scroll_position s;
     host_widget := host_widget s; objects := objects s;
     dark_theme := dark_theme s; panel_extent := panel_extent s;
     now := now s; single_shots := single_shots s;
     scroll_due := scroll_due s; refresh_due := refresh_due s;
     workers := workers s; journal := v |}.

(** Doing one thing: it goes to the end of the journal. *)
Definition record (a : action) (s : State) : State :=
  set_journal (journal s ++ [a]) s.

(** How a method ends: normally, or by an exception that leaves it. *)
Inductive outcome :=
| Ok (s : State)
| Raised (e : exn) (s : State).

(** [QTimer.singleShot(msec, cb)]: due [msec] after now. *)
Definition QTimer_singleShot (msec : Z) (cb : callback) (s : State) : State :=
  record (singleShot msec cb)
    (set_single_shots (single_shots s ++ [(now s + msec, cb)]) s).

Definition default_content : Content :=
  {| content := PStr "正在加载诗词...";
     author := PStr "系统";
     title := PStr "加载中";
     dynasty := PStr "请稍候";
     translate := PStr "正在从服务器获取数据" |}.

Definition error_content : Content :=
  {| content := PStr "数据获取失败";
     author := PStr "系统";
     title := PStr "错误";
     dynasty := PStr "5分钟后重试";
     translate := PStr "请检查网络连接" |}.

Definition _update_ui (c : Content) (s : State) : State :=
  QTimer_singleShot 0 (call_update_widget_content c) s.

Definition _show_loading (s : State) : State :=
  _update_ui default_content s.

(** [update_poetry]: show the loading text, then start a new worker. *)
Definition update_poetry (s : State) : State :=
  let s := _show_loading s in
  record worker_thread_start (set_workers (workers s ++ [now s]) s).

(** The dictionary literal built by [handle_success]. *)
Definition success_content (data : gmap string pyval) : exn + Content :=
  let content := dict_get data "quotes" (PStr "无法获取诗词内容") in
  let author := dict_get data "author" (PStr "未知作者") in
  let title := dict_get data "title" (PStr "未知标题") in
  let dynasty := dict_get data "dynasty" (PStr "未知朝代") in
  match str_add "翻译：" (dict_get data "translate" (PStr "暂无翻译")) with
  | inr translate =>
      inr {| content := content; author := author; title := title;
             dynasty := dynasty; translate := translate |}
  | inl e => inl e
  end.

Definition handle_success (data : gmap string pyval) (s : State) : outcome :=
  match success_content data with
  | inr c => Ok (_update_ui c s)
  | inl e => Raised e s
  end.

Definition retry_after : Z := 5 * 60 * 1000.

Definition handle_failure (s : State) : State :=
  let s := _update_ui error_content s in
  QTimer_singleShot retry_after call_update_poetry s.

(** [clear_existing_content]: take item 0 until none is left. *)
Fixpoint take_all {A} (its : list A) : list A :=
  match its with
  | [] => []
  | _ :: rest => take_all rest
  end.

Definition clear_existing_content {A} (l : Layout A) : Layout A :=
  {| spacing := spacing l; items := take_all (items l) |}.

Definition addWidget {A} (a : A) (l : Layout A) : Layout A :=
  {| spacing := spacing l; items := items l ++ [a] |}.

Definition setSpacing {A} (n : Z) (l : Layout A) : Layout A :=
  {| spacing := n; items := items l |}.

(** [QLabel(text)] needs a string. *)
Definition new_QLabel (text : pyval) : exn + string :=
  match text with
  | PStr s => inr s
  | _ => inl TypeError
  end.

(** [create_scroll_area]: three labels in a fresh scroll area. *)
Definition create_scroll_area (s : State)
    (content author title dynasty translate : pyval)
  : exn + SmoothScrollArea :=
  let scroll_content_layout :=
    clear_existing_content {| spacing := 0; items := [] |} in
  let font_color := if dark_theme s then "#FFFFFF" else "#000000" in
  match new_QLabel content with
  | inl e => inl e
  | inr c =>
      let content_label :=
        {| lb_text := Plain c; lb_font_size := 16; lb_color := font_color;
           lb_bold := true; lb_word_wrap := true |} in
      let scroll_content_layout := addWidget content_label scroll_content_layout in
      match new_QLabel translate with
      | inl e => inl e
      | inr t =>
          let translate_label :=
            {| lb_text := Plain t; lb_font_size := 14; lb_color := font_color;
               lb_bold := false; lb_word_wrap := true |} in
          let scroll_content_layout :=
            addWidget translate_label scroll_content_layout in
          let author_label :=
            {| lb_text := Attribution dynasty author title;
               lb_font_size := 12; lb_color := font_color;
               lb_bold := true; lb_word_wrap := false |} in
          let scroll_content_layout :=
            addWidget author_label scroll_content_layout in
          inr {| vScrollBar :=
                   Some {| sb_maximum := panel_extent s; sb_value := 0;
                           sb_ani := None |};
                 sa_resizable := true;
                 sa_content := scroll_content_layout |}
      end
  end.

(** [update_widget_content].  A scroll area object is always true, so the
    last [else] of the source cannot be taken. *)
Definition update_widget_content (c : Content) (s : State) : outcome :=
  let s := set_test_widget (Assigned (host_widget s)) s in
  match host_widget s with
  | None =>
      Ok (record (Log ERROR ("小组件未找到，WIDGET_CODE: " +:+ WIDGET_CODE)) s)
  | Some id =>
      match objects s !! id with
      | None => Raised RuntimeError s   (* the object was deleted *)
      | Some w =>
          match contentLayout w with
          | None => Ok (record (Log ERROR "未能找到小组件的'contentLayout'布局") s)
          | Some content_layout =>
              let content_layout := setSpacing 5 content_layout in
              let s := record (change_widget_content WIDGET_CODE WIDGET_NAME
                                 WIDGET_NAME) s in
              let content_layout := clear_existing_content content_layout in
              let s' := set_objects
                          (<[id := {| contentLayout := Some content_layout |}]>
                             (objects s)) s in
              match create_scroll_area s (content c) (author c) (title c)
                      (dynasty c) (translate c) with
              | inl e => Raised e s'
              | inr scroll_area =>
                  let content_layout :=
                    addWidget (ScrollAreaItem scroll_area) content_layout in
                  Ok (record (Log SUCCESS "诗词内容更新成功！")
                        (set_objects
                           (<[id := {| contentLayout := Some content_layout |}]>
                              (objects s)) s))
              end
          end
      end
  end.

(** [auto_scroll]. *)
Definition auto_scroll (s : State) : outcome :=
  match test_widget s with
  | Unset => Raised (AttributeError "test_widget") s
  | Assigned None => Ok s
  | Assigned (Some id) =>
      match objects s !! id with
      | None => Raised RuntimeError s   (* the object was deleted *)
      | Some w =>
          match findChild_SmoothScrollArea w with
          | None => Ok s
          | Some scroll_area =>
              match verticalScrollBar scroll_area with
              | None => Ok s
              | Some vertical_scrollbar =>
                  let max_value := sb_maximum vertical_scrollbar in
                  let s :=
                    if scroll_position s >=? max_value
                    then set_scroll_position 0 s
                    else set_scroll_position (scroll_position s + 1) s in
                  let vertical_scrollbar :=
                    setValue vertical_scrollbar (scroll_position s) in
                  let scroll_area :=
                    {| vScrollBar := Some vertical_scrollbar;
                       sa_resizable := sa_resizable scroll_area;
                       sa_content := sa_content scroll_area |} in
                  Ok (set_objects
                        (<[id := put_scroll_area scroll_area w]> (objects s)) s)
              end
          end
      end
  end.

Definition scroll_interval : Z := 150.
Definition refresh_interval : Z := 2 * 60 * 60 * 1000.

(** [__init__], on a host in the given condition, at time 0. *)
Definition __init__ (host_widget : option nat) (objects : gmap nat QWidget)
    (dark_theme : bool) (panel_extent : Z) : State :=
  let s :=
    {| test_widget := Unset; scroll_position := 0;
       host_widget := host_widget; objects := objects;
       dark_theme := dark_theme; panel_extent := panel_extent;
       now := 0; single_shots := []; scroll_due := 0; refresh_due := 0;
       workers := [];
       journal := [register_widget WIDGET_CODE WIDGET_NAME WIDGET_WIDTH] |} in
  let s := set_scroll_due (now s + scroll_interval) s in
  let s := update_poetry s in
  set_refresh_due (now s + refresh_interval) s.

(** [execute]. *)
Definition execute (s : State) : State := update_poetry s.

End Plugin.

(** ** The event loop driving the controller *)

Module EventLoop.
Import PoetryFetchThread Plugin.

(** What can happen on the thread that owns the display. *)
Inductive input :=
| Advance (dt : Z)                        (* time passes *)
| ScrollTimeout                           (* scroll_timer.timeout *)
| RefreshTimeout                          (* refresh_timer.timeout *)
| SingleShot (i : nat)                    (* the i-th waiting single shot *)
| Execute                                 (* the host calls execute() *)
| WorkerDone (i : nat) (net : nat → reply).
    (* the signal of the i-th running worker arrives; the network answered
       its requests as [net] says *)

(** Time a worker spends asleep, in milliseconds. *)
Fixpoint slept_ms (tr : list event) : Z :=
  match tr with
  | [] => 0
  | Sleep secs :: rest => 1000 * secs + slept_ms rest
  | _ :: rest => slept_ms rest
  end.

(** The connected slot is called with what the worker emitted. *)
Definition deliver (tr : list event) (s : State) : option outcome :=
  match signals tr with
  | [fetch_success data] => Some (handle_success data s)
  | [fetch_failed] => Some (Ok (handle_failure s))
  | _ => None
  end.

Definition call (cb : callback) (s : State) : outcome :=
  match cb with
  | call_update_widget_content c => update_widget_content c s
  | call_update_poetry => Ok (update_poetry s)
  end.

(** One dispatch; [None] when the input cannot happen in this state: a
    timer never fires before it is due, and a worker cannot be done before
    the time it sleeps has passed. *)
Definition step (s : State) (i : input) : option outcome :=
  match i with
  | Advance dt =>
      if 0 <=? dt then Some (Ok (set_now (now s + dt) s)) else None
  | ScrollTimeout =>
      if scroll_due s <=? now s
      then Some (auto_scroll (set_scroll_due (now s + scroll_interval) s))
      else None
  | RefreshTimeout =>
      if refresh_due s <=? now s
      then Some (Ok (update_poetry
                       (set_refresh_due (now s + refresh_interval) s)))
      else None
  | SingleShot i =>
      match single_shots s !! i with
      | Some (due, cb) =>
          if due <=? now s
          then Some (call cb (set_single_shots (delete i (single_shots s)) s))
          else None
      | None => None
      end
  | Execute => Some (Ok (execute s))
  | WorkerDone i net =>
      match workers s !! i, run net with
      | Some started, Some tr =>
          if started + slept_ms tr <=? now s
          then deliver tr (set_workers (delete i (workers s)) s)
          else None
      | _, _ => None
      end
  end.

(** A run of the loop.  An exception that leaves a slot ends it. *)
Fixpoint exec (s : State) (ins : list input) : option outcome :=
  match ins with
  | [] => Some (Ok s)
  | i :: rest =>
      match step s i with
      | Some (Ok s') => exec s' rest
      | Some (Raised e s') =>
          match rest with [] => Some (Raised e s') | _ :: _ => None end
      | None => None
      end
  end.

(** Re-fetches scheduled by [handle_failure] that have not fired yet. *)
Definition is_retry (p : Z * callback) : bool :=
  match p with
  | (_, call_update_poetry) => true
  | _ => false
  end.

Definition pending_retries (s : State) : nat :=
  length (filter is_retry (single_shots s)).

(** [n] scroll ticks in a row. *)
Fixpoint ticks (n : nat) (s : State) : outcome :=
  match n with
  | O => Ok s
  | S n' =>
      match ticks n' s with
      | Ok s' => auto_scroll s'
      | Raised e s' => Raised e s'
      end
  end.

(** A panel is attached, with a vertical bar of maximum [M]. *)
Definition attached (M : Z) (s : State) : Prop :=
  ∃ id w scroll_area vertical_scrollbar,
    test_widget s = Assigned (Some id) ∧
    objects s !! id = Some w ∧
    findChild_SmoothScrollArea w = Some scroll_area ∧
    verticalScrollBar scroll_area = Some vertical_scrollbar ∧
    sb_maximum vertical_scrollbar = M.

(** No panel is attached although [test_widget] was assigned: the host
    returned no widget, or the widget has no scroll area, or the scroll
    area has no vertical bar. *)
Definition detached (s : State) : Prop :=
  test_widget s = Assigned None ∨
  ∃ id w,
    test_widget s = Assigned (Some id) ∧
    objects s !! id = Some w ∧
    (findChild_SmoothScrollArea w = None ∨
     ∃ scroll_area,
       findChild_SmoothScrollArea w = Some scroll_area ∧
       verticalScrollBar scroll_area = None).

Definition state_of (o : outcome) : State :=
  match o with
  | Ok s => s
  | Raised _ s => s
  end.

(** Fetch cycles under way: re-fetches waiting to fire and workers whose
    signal is still to come. *)
Definition cycles (s : State) : nat :=
  (pending_retries s + length (workers s))%nat.

(** Inputs that start a cycle of their own, outside the retry chain. *)
Definition starts_cycle (i : input) : bool :=
  match i with
  | RefreshTimeout | Execute => true
  | _ => false
  end.

(** A run in which the refresh timer and [execute] start a cycle only when
    none is under way. *)
Fixpoint overlap_free (s : State) (ins : list input) : bool :=
  match ins with
  | [] => true
  | i :: rest =>
      (if starts_cycle i then (cycles s =? 0)%nat else true) &&
      match step s i with
      | Some (Ok s') => overlap_free s' rest
      | _ => true
      end
  end.

(** The claim that two scheduled re-fetches never wait at the same time,
    over every run of the loop from a freshly built plugin. *)
Definition retries_never_overlap : Prop :=
  ∀ host_widget objects dark_theme panel_extent ins s,
    exec (__init__ host_widget objects dark_theme panel_extent) ins
      = Some (Ok s) →
    (pending_retries s ≤ 1)%nat.

End EventLoop.

(** ** Concrete inputs *)

Module Samples.
Import PoetryFetchThread Plugin EventLoop.

Definition poem : gmap string pyval :=
  <["quotes" := PStr "床前明月光"]>
  (<["author" := PStr "李白"]>
  (<["title" := PStr "静夜思"]>
  (<["dynasty" := PStr "唐"]>
  (<["translate" := PStr "明亮的月光洒在床前"]> ∅)))).

Definition ok_reply : reply :=
  Response 200 (Some (PDict (<["data" := PDict poem]> ∅))).

(** No network at all. *)
Definition net_down : nat → reply := λ _, NoResponse "connection refused".

(** Two transient failures, then a good answer. *)
Definition net_flaky : nat → reply := λ i,
  match i with
  | O => NoResponse "timed out"
  | S O => Response 503 None
  | _ => ok_reply
  end.

(** A server that answers 200 with an empty [data] object. *)
Definition net_empty : nat → reply := λ _,
  Response 200 (Some (PDict (<["data" := PDict ∅]> ∅))).

(** A host whose widget 7 has an empty ['contentLayout']. *)
Definition panel : gmap nat QWidget :=
  {[ 7%nat := {| contentLayout := Some {| spacing := 0; items := [] |} |} ]}.

Definition fresh : State := __init__ (Some 7%nat) panel false 3.

(** The same plugin once the loading text is on the panel. *)
Definition loading : State :=
  match exec fresh [SingleShot 0] with
  | Some o => state_of o
  | None => fresh
  end.

(** One failed cycle with the network down: the pending display update
    runs, the worker takes its three 2-second sleeps and reports failure,
    the error text is shown, five minutes pass and the re-fetch fires. *)
Definition failed_cycle : list input :=
  [SingleShot 0; Advance 6000; WorkerDone 0 net_down; SingleShot 0;
   Advance 300000; SingleShot 0].

(** The network is down from the start.  Twenty-three failed cycles take
    the clock to 7 038 000 ms; the twenty-fourth worker fails at
    7 044 000 ms and its re-fetch is due at 7 344 000 ms.  At 7 200 000 ms
    the two-hour refresh timer fires and starts a worker of its own, which
    fails six seconds later. *)
Definition two_hours_down : list input :=
  concat (replicate 23 failed_cycle) ++
  [SingleShot 0; Advance 6000; WorkerDone 0 net_down; SingleShot 0;
   Advance 156000; RefreshTimeout; SingleShot 1; Advance 6000;
   WorkerDone 0 net_down].

(** Two exhausted cycles in a row, the second started by the re-fetch of
    the first. *)
Definition two_failures : list input :=
  failed_cycle ++ [SingleShot 0; Advance 6000; WorkerDone 0 net_down].

(** The plugin six seconds after the start, its first worker about to
    report. *)
Definition waiting : State :=
  match exec fresh [SingleShot 0; Advance 6000] with
  | Some o => state_of o
  | None => fresh
  end.

(** Where those two failures leave the plugin, and where two hours
    without network do. *)
Definition after_two_failures : State :=
  match exec fresh two_failures with
  | Some o => state_of o
  | None => fresh
  end.

Definition after_two_hours_down : State :=
  match exec fresh two_hours_down with
  | Some o => state_of o
  | None => fresh
  end.

(** A payload without an author. *)
Definition anonymous : gmap string pyval := delete "author" poem.

(** A payload whose translation is [null]. *)
Definition untranslated : gmap string pyval := <["translate" := PNone]> poem.

End Samples.

(** ** Reading traces and runs *)

Module Reading.
Import PoetryFetchThread Plugin EventLoop.

(** The log line an attempt leaves: one when the [except] clause ran. *)
Definition logged (r : reply) : list event :=
  match try_block r with
  | Caught e => [LogError e]
  | _ => []
  end.

(** What the loop does for one attempt that does not emit. *)
Definition turn (r : reply) : list event :=
  Request :: logged r ++ [Sleep retry_delay].

(** The turns for attempts [i], ..., [i + n - 1]. *)
Definition turns (net : nat → reply) (i n : nat) : list event :=
  flat_map (λ j, turn (net j)) (seq i n).

Definition logs (tr : list event) : list event := filter is_log tr.

(** Does this input deliver a success? *)
Definition delivers_success (i : input) : bool :=
  match i with
  | WorkerDone _ net =>
      match run net with
      | Some tr =>
          match signals tr with [fetch_success _] => true | _ => false end
      | None => false
      end
  | _ => false
  end.

(** A value that is a string. *)
Definition is_str (v : pyval) : bool :=
  match v with PStr _ => true | _ => false end.


End Reading.

(** * Properties of the worker *)

Module RunFacts.
Import PoetryFetchThread Samples.

(** A reply makes the worker emit exactly when it carries a non-empty
    dictionary under ["data"]. *)
Lemma carries_emitted r d : carries r d → try_block r = Emitted d.
Proof.
  intros (status & body & -> & Hst & Hdata & Hne).
  unfold try_block. rewrite Hst. simpl. unfold dict_get. rewrite Hdata.
  simpl. by rewrite bool_decide_false.
Qed.

Lemma emitted_carries r d : try_block r = Emitted d → carries r d.
Proof.
  destruct r as [err | status [json |]]; simpl; try discriminate.
  - destruct (raises_for_status status) eqn:Hst; try discriminate.
    destruct json as [| | | | | |body]; simpl; try discriminate.
    unfold dict_get. destruct (body !! "data") as [v |] eqn:Hdata.
    + destruct v as [|b|z|f|s|l|m]; simpl;
        repeat case_match; try discriminate.
      intros [= ->]. exists status, body. repeat split; try done.
      intros ->. by rewrite bool_decide_true in *.
    + simpl. by rewrite bool_decide_true.
  - by destruct (raises_for_status status).
Qed.

Lemma no_data_falsy r : no_data r → try_block r = Falsy.
Proof.
  intros (status & body & -> & Hst & Hdata).
  unfold try_block, raises_for_status.
  replace (400 <=? status) with false by lia. simpl. unfold dict_get.
  destruct Hdata as [-> | ->]; simpl; by rewrite bool_decide_true.
Qed.

(** One turn of the loop, by what the [try] did. *)
Lemma run_loop_emitted fuel net i d :
  (i < max_retries)%nat → try_block (net i) = Emitted d →
  run_loop (S fuel) net i = Some [Request; fetch_success d].
Proof.
  intros Hi Hd. simpl. apply Nat.ltb_lt in Hi. by rewrite Hi, Hd.
Qed.

Lemma run_loop_failed fuel net i rest :
  (i < max_retries)%nat → failed (net i) →
  run_loop fuel net (S i) = Some rest →
  ∃ turn, failed_turn turn = true ∧
          run_loop (S fuel) net i = Some (turn ++ rest).
Proof.
  intros Hi Hf Hrest. apply Nat.ltb_lt in Hi.
  cbn [run_loop]. rewrite Hi, Hrest.
  destruct (try_block (net i)) as [d | | e] eqn:Hb.
  - by destruct (Hf d).
  - by exists [Request; Sleep retry_delay].
  - by exists [Request; LogError e; Sleep retry_delay].
Qed.

Lemma run_loop_exhausted fuel net :
  run_loop (S fuel) net max_retries = Some [fetch_failed].
Proof. reflexivity. Qed.

(** The loop ends whatever the network does: with fuel for the turns
    that are left and one more, it has a trace. *)
Lemma run_loop_total fuel net i :
  (max_retries - i < fuel)%nat → is_Some (run_loop fuel net i).
Proof.
  revert i. induction fuel as [| fuel IH]; intros i Hfuel; [lia |].
  cbn [run_loop]. destruct (i <? max_retries)%nat eqn:Hi; [| eauto].
  apply Nat.ltb_lt in Hi.
  destruct (IH (S i)) as [rest Hrest]; [lia |]. rewrite Hrest.
  destruct (try_block (net i)); cbn; eauto.
Qed.

Lemma run_total net : is_Some (run net).
Proof. apply run_loop_total. unfold max_retries. lia. Qed.

(** What a failed turn contributes to the projections of a trace. *)
Lemma failed_turn_inv t :
  failed_turn t = true →
  t = [Request; Sleep retry_delay] ∨
  ∃ e, t = [Request; LogError e; Sleep retry_delay].
Proof.
  destruct t as [| [] [| [] [| [] [| ? ?]]]]; try discriminate; cbn;
    intros ->%Z.eqb_eq; eauto.
Qed.

Ltac turn_cases H :=
  apply failed_turn_inv in H as [-> | [? ->]].

(** Membership in an explicit list of events that are all different from
    the one looked for. *)
Ltac not_listed H :=
  repeat (apply elem_of_cons in H as [H | H]; [discriminate H |]);
  by apply elem_of_nil in H.

Lemma signals_turn t rest :
  failed_turn t = true → signals (t ++ rest) = signals rest.
Proof. intros H. by turn_cases H. Qed.

Lemma requests_turn t rest :
  failed_turn t = true → requests (t ++ rest) = S (requests rest).
Proof. intros H. by turn_cases H. Qed.

Lemma sleeps_turn t rest :
  failed_turn t = true → sleeps (t ++ rest) = S (sleeps rest).
Proof. intros H. by turn_cases H. Qed.

Lemma unlogged_turn t rest :
  failed_turn t = true →
  unlogged (t ++ rest) = Request :: Sleep retry_delay :: unlogged rest.
Proof. intros H. by turn_cases H. Qed.

Lemma last_turn t rest x :
  failed_turn t = true → last rest = Some x → last (t ++ rest) = Some x.
Proof. intros _ Hx. by rewrite last_app, Hx. Qed.

Lemma last_of_turn t :
  failed_turn t = true → last t = Some (Sleep retry_delay).
Proof. intros H. by turn_cases H. Qed.

Lemma not_in_turn t rest :
  failed_turn t = true → fetch_failed ∉ rest → fetch_failed ∉ t ++ rest.
Proof.
  intros H Hr [Hin | Hin]%elem_of_app; [| done].
  turn_cases H; not_listed Hin.
Qed.

Lemma signal_in_signals e tr : is_signal e = true → e ∈ tr → e ∈ signals tr.
Proof.
  intros He Hin. unfold signals. apply list_elem_of_filter. split; [| done].
  by rewrite He.
Qed.

(** C1.  When the first attempt that succeeds is attempt [k], with [k] at
    most 3, and it carries a non-empty [data] dictionary [d], the run
    emits [fetch_success d] and no other signal, the emission is the last
    thing the run does, exactly [k] requests were made, and
    [fetch_failed] is not emitted. *)
Theorem run_first_success (net : nat → reply) (k : nat)
    (d : gmap string pyval) :
  (1 ≤ k ≤ max_retries)%nat →
  (∀ i, (S i < k)%nat → failed (net i)) →
  carries (net (pred k)) d →
  ∃ tr, run net = Some tr ∧
        signals tr = [fetch_success d] ∧
        last tr = Some (fetch_success d) ∧
        requests tr = k ∧
        fetch_failed ∉ tr.
Proof.
  intros Hk Hfail Hd%carries_emitted. unfold max_retries in Hk.
  assert (Hend : ∀ fuel i, (i < 3)%nat →
            try_block (net i) = Emitted d →
            ∃ tr, run_loop (S fuel) net i = Some tr ∧
                  signals tr = [fetch_success d] ∧
                  last tr = Some (fetch_success d) ∧
                  requests tr = 1%nat ∧ fetch_failed ∉ tr).
  { intros fuel i Hi He. eexists. split; [by apply run_loop_emitted |].
    repeat split; try done.
    intros Hin. not_listed Hin. }
  assert (Hturn : ∀ fuel i n, (i < 3)%nat → failed (net i) →
            (∃ tr, run_loop fuel net (S i) = Some tr ∧
                   signals tr = [fetch_success d] ∧
                   last tr = Some (fetch_success d) ∧
                   requests tr = n ∧ fetch_failed ∉ tr) →
            ∃ tr, run_loop (S fuel) net i = Some tr ∧
                  signals tr = [fetch_success d] ∧
                  last tr = Some (fetch_success d) ∧
                  requests tr = S n ∧ fetch_failed ∉ tr).
  { intros fuel i n Hi Hf (tr & Hrun & Hsig & Hlast & Hreq & Hnot).
    destruct (run_loop_failed fuel net i tr Hi Hf Hrun)
      as (turn & Hturn & Hrun').
    eexists. split; [exact Hrun' |].
    rewrite signals_turn, requests_turn by done.
    repeat split; auto using last_turn, not_in_turn. }
  unfold run, max_retries.
  destruct k as [| [| [| [| k]]]]; try lia; cbn [pred] in Hd.
  - apply Hend; [lia | done].
  - apply Hturn; [lia | apply Hfail; lia |]. apply Hend; [lia | done].
  - apply Hturn; [lia | apply Hfail; lia |].
    apply Hturn; [lia | apply Hfail; lia |]. apply Hend; [lia | done].
Qed.

(** The run of C1 on a network that fails twice and then answers. *)
Lemma run_first_success_witness :
  ∃ tr, run net_flaky = Some tr ∧
        signals tr = [fetch_success poem] ∧
        last tr = Some (fetch_success poem) ∧
        requests tr = 3%nat ∧
        fetch_failed ∉ tr.
Proof.
  apply (run_first_success net_flaky 3 poem).
  - unfold max_retries. lia.
  - intros i Hi d. destruct i as [| [| i]]; [done | done | lia].
  - exists 200, (<["data" := PDict poem]> ∅). repeat split.
    intros Hempty. by apply (f_equal (λ m, m !! "author")) in Hempty.
Defined.

(** The three failed turns of a run in which no attempt emits. *)
Lemma run_three_turns net :
  (∀ i, (i < max_retries)%nat → failed (net i)) →
  ∃ t0 t1 t2,
    failed_turn t0 = true ∧ failed_turn t1 = true ∧ failed_turn t2 = true ∧
    run net = Some (t0 ++ t1 ++ t2 ++ [fetch_failed]).
Proof.
  intros Hfail. unfold run, max_retries in *.
  destruct (run_loop_failed 1 net 2 _ ltac:(unfold max_retries; lia)
              (Hfail 2%nat ltac:(lia)) (run_loop_exhausted 0 net))
    as (t2 & Ht2 & H2).
  destruct (run_loop_failed 2 net 1 _ ltac:(unfold max_retries; lia)
              (Hfail 1%nat ltac:(lia)) H2) as (t1 & Ht1 & H1).
  destruct (run_loop_failed 3 net 0 _ ltac:(unfold max_retries; lia)
              (Hfail 0%nat ltac:(lia)) H1) as (t0 & Ht0 & H0).
  by exists t0, t1, t2.
Qed.

(** C2.  When all three attempts fail, the run emits [fetch_failed] and
    no other signal, makes exactly three requests, and, log lines aside,
    is request, 2-second sleep, request, 2-second sleep, request,
    2-second sleep, [fetch_failed]. *)
Theorem run_all_failed (net : nat → reply) :
  (∀ i, (i < max_retries)%nat → failed (net i)) →
  ∃ tr, run net = Some tr ∧
        signals tr = [fetch_failed] ∧
        requests tr = 3%nat ∧
        (∀ d, fetch_success d ∉ tr) ∧
        unlogged tr = [Request; Sleep 2; Request; Sleep 2;
                       Request; Sleep 2; fetch_failed].
Proof.
  intros (t0 & t1 & t2 & Ht0 & Ht1 & Ht2 & Hrun)%run_three_turns.
  eexists. split; [exact Hrun |].
  assert (Hsig : signals (t0 ++ t1 ++ t2 ++ [fetch_failed]) = [fetch_failed])
    by by rewrite !signals_turn.
  rewrite !requests_turn, !unlogged_turn by done.
  repeat split; try done.
  intros d Hin. apply (signal_in_signals (fetch_success d)) in Hin; [| done].
  rewrite Hsig in Hin. not_listed Hin.
Qed.

(** The run of C2 with the network down. *)
Lemma run_all_failed_witness :
  ∃ tr, run net_down = Some tr ∧
        signals tr = [fetch_failed] ∧
        requests tr = 3%nat ∧
        (∀ d, fetch_success d ∉ tr) ∧
        unlogged tr = [Request; Sleep 2; Request; Sleep 2;
                       Request; Sleep 2; fetch_failed].
Proof.
  apply (run_all_failed net_down). intros i _ d. discriminate.
Defined.

(** C9.  A 2xx reply without ["data"], or with an empty one, is a failed
    attempt: nothing is emitted for it, the loop goes on with the next
    value of [retry_count] after the 2-second sleep, on the third attempt
    that means [fetch_failed], and three such replies in a row give the
    trace of a failed run. *)
Theorem empty_data_is_failure (net : nat → reply) (i fuel : nat) :
  (i < max_retries)%nat →
  no_data (net i) →
  try_block (net i) = Falsy ∧
  failed (net i) ∧
  run_loop (S fuel) net i
    = (rest ← run_loop fuel net (S i);
       Some (Request :: Sleep retry_delay :: rest)) ∧
  (S i = max_retries →
   run_loop (S (S fuel)) net i
     = Some [Request; Sleep retry_delay; fetch_failed]) ∧
  ((∀ j, (j < max_retries)%nat → no_data (net j)) →
   run net = Some [Request; Sleep retry_delay; Request; Sleep retry_delay;
                   Request; Sleep retry_delay; fetch_failed]).
Proof.
  intros Hi Hno. pose proof (no_data_falsy _ Hno) as Hf.
  assert (Hstep : ∀ fuel' j, (j < max_retries)%nat → no_data (net j) →
            run_loop (S fuel') net j
              = (rest ← run_loop fuel' net (S j);
                 Some (Request :: Sleep retry_delay :: rest))).
  { intros fuel' j Hj Hnj. cbn [run_loop].
    apply Nat.ltb_lt in Hj. by rewrite Hj, (no_data_falsy _ Hnj). }
  split; [done |]. split; [intros d; by rewrite Hf |].
  split; [by apply Hstep |]. split.
  - intros Hlast. rewrite Hstep by done. rewrite Hlast.
    by rewrite run_loop_exhausted.
  - intros Hall. unfold run, max_retries in *.
    rewrite Hstep by (try apply Hall; unfold max_retries; lia).
    rewrite Hstep by (try apply Hall; unfold max_retries; lia).
    rewrite Hstep by (try apply Hall; unfold max_retries; lia).
    reflexivity.
Qed.

(** C9 on a server that keeps answering 200 with an empty object, at the
    last attempt. *)
Lemma empty_data_is_failure_witness :
  try_block (net_empty 2%nat) = Falsy ∧
  failed (net_empty 2%nat) ∧
  run_loop 3 net_empty 2 = Some [Request; Sleep retry_delay; fetch_failed] ∧
  run net_empty = Some [Request; Sleep retry_delay; Request;
                        Sleep retry_delay; Request; Sleep retry_delay;
                        fetch_failed].
Proof.
  assert (Hno : ∀ j, no_data (net_empty j)).
  { intros j. exists 200, (<["data" := PDict ∅]> ∅).
    split; [reflexivity |]. split; [lia | right; reflexivity]. }
  destruct (empty_data_is_failure net_empty 2 1) as (H1 & H2 & _ & H4 & H5).
  - unfold max_retries. lia.
  - apply Hno.
  - split; [exact H1 |]. split; [exact H2 |].
    split; [apply H4; reflexivity | apply H5; intros j _; apply Hno].
Defined.

(** C10.  Each failed attempt is a turn that ends with the 2-second
    sleep, whichever attempt it is: when the first [k] attempts fail, the
    trace is [k] such turns followed by what the loop does from
    [retry_count = k], and for [k = 3] that is [fetch_failed] alone, so
    the signal comes right after the sleep that follows the third
    request. *)
Theorem delay_after_every_failure (net : nat → reply) (k : nat) :
  (k ≤ max_retries)%nat →
  (∀ i, (i < k)%nat → failed (net i)) →
  ∃ turns rest,
    length turns = k ∧
    Forall (λ t, failed_turn t = true ∧ last t = Some (Sleep 2)) turns ∧
    run_loop (S max_retries - k) net k = Some rest ∧
    run net = Some (concat turns ++ rest) ∧
    (k = max_retries → rest = [fetch_failed]).
Proof.
  intros Hk Hfail.
  assert (Hgo : ∀ n i, (i + n = k)%nat →
            ∃ turns rest,
              length turns = n ∧
              Forall (λ t, failed_turn t = true ∧ last t = Some (Sleep 2))
                turns ∧
              run_loop (S max_retries - k) net k = Some rest ∧
              run_loop (S max_retries - i) net i
                = Some (concat turns ++ rest)).
  { induction n as [| n IH]; intros i Hi.
    - destruct (run_loop_total (S max_retries - k) net k) as [rest Hrest];
        [unfold max_retries in *; lia |].
      exists [], rest. replace i with k by lia. by repeat split.
    - destruct (IH (S i)) as (turns & rest & Hlen & Hall & Hrest & Hrun);
        [lia |].
      replace (S max_retries - i)%nat with (S (S max_retries - S i))
        by (unfold max_retries in *; lia).
      destruct (run_loop_failed _ net i _ ltac:(lia)
                  (Hfail i ltac:(lia)) Hrun) as (t & Ht & Hrun').
      exists (t :: turns), rest. cbn [concat length].
      rewrite <- app_assoc. repeat split; auto.
      constructor; auto using last_of_turn. }
  destruct (Hgo k 0%nat) as (turns & rest & Hlen & Hall & Hrest & Hrun);
    [lia |].
  exists turns, rest. repeat split; auto.
  intros ->. rewrite Nat.sub_succ_l, Nat.sub_diag in Hrest by done.
  rewrite run_loop_exhausted in Hrest. congruence.
Qed.

(** C10 with the network down: the run ends with a sleep and then the
    signal. *)
Lemma delay_after_every_failure_witness :
  ∃ pre, run net_down = Some (pre ++ [Sleep 2; fetch_failed]).
Proof.
  destruct (delay_after_every_failure net_down 3)
    as (turns & rest & Hlen & Hall & _ & Hrun & Hrest).
  - unfold max_retries. lia.
  - intros i _ d. discriminate.
  - rewrite (Hrest eq_refl) in Hrun.
    destruct turns as [| t0 [| t1 [| t2 [| t3 turns]]]]; try discriminate.
    apply Forall_cons in Hall as [_ Hall].
    apply Forall_cons in Hall as [_ Hall].
    apply Forall_cons in Hall as [[_ Hlast] _].
    destruct (last_Some t2 (Sleep 2)) as [[pre Hpre] _]; [exact Hlast |].
    exists (t0 ++ t1 ++ pre). rewrite Hrun, Hpre. cbn [concat].
    rewrite app_nil_r, <- !app_assoc. reflexivity.
Defined.

End RunFacts.

(** * Properties of the controller *)

Module PluginFacts.
Import PoetryFetchThread Plugin EventLoop Samples.

(** ** The scroll tick *)

Lemma first_scroll_area_put its sa sa' :
  first_scroll_area its = Some sa →
  first_scroll_area (put_first_scroll_area sa' its) = Some sa'.
Proof.
  induction its as [| [sa0 | name |] its IH]; cbn; try done; auto.
Qed.

Lemma findChild_put w sa sa' :
  findChild_SmoothScrollArea w = Some sa →
  findChild_SmoothScrollArea (put_scroll_area sa' w) = Some sa'.
Proof.
  unfold findChild_SmoothScrollArea, put_scroll_area.
  destruct (contentLayout w) as [l |]; [| done]. cbn.
  apply first_scroll_area_put.
Qed.

Lemma setValue_maximum sb v : sb_maximum (setValue sb v) = sb_maximum sb.
Proof. unfold setValue. by destruct (v =? sb_value sb). Qed.

(** One tick with a panel attached: the next position, and the panel is
    still attached with the same maximum. *)
Lemma auto_scroll_attached M s :
  attached M s →
  ∃ s', auto_scroll s = Ok s' ∧
        attached M s' ∧
        scroll_position s'
          = (if scroll_position s >=? M then 0 else scroll_position s + 1).
Proof.
  intros (id & w & sa & sb & Htw & Hobj & Hfind & Hbar & Hmax).
  unfold auto_scroll. rewrite Htw, Hobj, Hfind, Hbar, Hmax.
  eexists. split; [reflexivity |]. split.
  - eexists id, _, _, _. split; [| split; [| split; [| split]]].
    + by destruct (scroll_position s >=? M).
    + cbn. apply lookup_insert_eq.
    + eapply findChild_put, Hfind.
    + reflexivity.
    + by rewrite setValue_maximum.
  - by destruct (scroll_position s >=? M).
Qed.

(** One tick without a panel, once [test_widget] has been assigned:
    nothing happens. *)
Lemma auto_scroll_detached s : detached s → auto_scroll s = Ok s.
Proof.
  unfold auto_scroll.
  intros [-> | (id & w & -> & -> & [-> | (sa & -> & ->)])]; done.
Qed.

Lemma next_position_mod M n :
  0 < M →
  (if Z.of_nat n mod (M + 1) >=? M then 0 else Z.of_nat n mod (M + 1) + 1)
    = Z.of_nat (S n) mod (M + 1).
Proof.
  intros HM. rewrite Nat2Z.inj_succ, <- Z.add_1_r.
  rewrite <- (Zplus_mod_idemp_l (Z.of_nat n)).
  pose proof (Z.mod_pos_bound (Z.of_nat n) (M + 1) ltac:(lia)) as Hb.
  rewrite Z.geb_leb.
  generalize dependent (Z.of_nat n mod (M + 1)). intros p Hb.
  destruct (M <=? p) eqn:Hge.
  - apply Z.leb_le in Hge. replace p with M by lia.
    by rewrite Z_mod_same_full.
  - apply Z.leb_gt in Hge. rewrite Z.mod_small; lia.
Qed.

(** C3.  With a panel attached whose vertical bar has maximum [M > 0]
    throughout, [N] ticks from position 0 leave [scroll_position] at
    [N mod (M+1)]; and the next tick adds one, or goes back to 0 when the
    position is [M]. *)
Theorem scroll_position_after_ticks (M : Z) (N : nat) (s : State) :
  0 < M →
  attached M s →
  scroll_position s = 0 →
  ∃ s', ticks N s = Ok s' ∧
        scroll_position s' = Z.of_nat N mod (M + 1) ∧
        attached M s' ∧
        ∃ s'', auto_scroll s' = Ok s'' ∧
               scroll_position s''
                 = (if scroll_position s' =? M then 0
                    else scroll_position s' + 1).
Proof.
  intros HM Hatt Hpos.
  assert (Hticks : ∃ s', ticks N s = Ok s' ∧
            scroll_position s' = Z.of_nat N mod (M + 1) ∧ attached M s').
  { induction N as [| N (s' & Hrun & Hp & Ha)].
    - exists s. rewrite Hpos, Z.mod_0_l by lia. by repeat split.
    - destruct (auto_scroll_attached M s' Ha) as (s'' & Hstep & Ha' & Hp').
      exists s''. cbn [ticks]. rewrite Hrun. repeat split; try done.
      rewrite Hp', Hp. by apply next_position_mod. }
  destruct Hticks as (s' & Hrun & Hp & Ha).
  exists s'. repeat split; try done.
  destruct (auto_scroll_attached M s' Ha) as (s'' & Hstep & _ & Hp').
  exists s''. split; [done |]. rewrite Hp'.
  pose proof (Z.mod_pos_bound (Z.of_nat N) (M + 1) ltac:(lia)) as Hb.
  rewrite <- Hp in Hb. rewrite Z.geb_leb.
  destruct (M <=? scroll_position s') eqn:Hge,
           (scroll_position s' =? M) eqn:Heq; try done.
  - apply Z.leb_le in Hge. apply Z.eqb_neq in Heq. lia.
  - apply Z.leb_gt in Hge. apply Z.eqb_eq in Heq. lia.
Qed.

(** C3 on the sample panel, whose bar has maximum 3: six ticks. *)
Lemma scroll_position_after_ticks_witness :
  ∃ s', ticks 6 loading = Ok s' ∧
        scroll_position s' = 2 ∧
        attached 3 s' ∧
        ∃ s'', auto_scroll s' = Ok s'' ∧
               scroll_position s''
                 = (if scroll_position s' =? 3 then 0
                    else scroll_position s' + 1).
Proof.
  apply (scroll_position_after_ticks 3 6 loading).
  - lia.
  - eexists 7%nat, _, _, _. repeat split; reflexivity.
  - reflexivity.
Defined.


(** ** The display update *)

(** C7.  When the host has no widget for the plugin, or the widget has no
    ['contentLayout'], [update_widget_content] returns normally after one
    ERROR log line: nothing else is done, and no object of the host is
    changed, so what is displayed stays as it was. *)
Theorem update_widget_content_aborts (c : Content) (s : State) :
  (host_widget s = None ∨
   ∃ id w, host_widget s = Some id ∧ objects s !! id = Some w ∧
           contentLayout w = None) →
  ∃ msg s',
    update_widget_content c s = Ok s' ∧
    s' = record (Log ERROR msg)
           (set_test_widget (Assigned (host_widget s)) s) ∧
    objects s' = objects s ∧
    journal s' = journal s ++ [Log ERROR msg] ∧
    single_shots s' = single_shots s ∧
    scroll_position s' = scroll_position s.
Proof.
  unfold update_widget_content.
  intros [Hnone | (id & w & Hid & Hw & Hl)].
  - cbn. rewrite Hnone. eexists _, _. by repeat split.
  - cbn. rewrite Hid, Hw, Hl. eexists _, _. by repeat split.
Qed.

(** C7 on a host that has no widget for the plugin. *)
Lemma update_widget_content_aborts_witness :
  ∃ msg s',
    update_widget_content error_content (__init__ None ∅ false 3) = Ok s' ∧
    s' = record (Log ERROR msg)
           (set_test_widget (Assigned None) (__init__ None ∅ false 3)) ∧
    objects s' = ∅ ∧
    journal s' = journal (__init__ None ∅ false 3) ++ [Log ERROR msg] ∧
    single_shots s' = single_shots (__init__ None ∅ false 3) ∧
    scroll_position s' = 0.
Proof.
  apply (update_widget_content_aborts error_content (__init__ None ∅ false 3)).
  left. reflexivity.
Defined.

(** ** The payload mapping *)

(** C4.  A payload whose five fields, where present, are strings: each
    field that is present goes through unchanged, each one that is missing
    is replaced by its fallback text, and the translation always gets the
    prefix; that record is what [handle_success] hands to the display. *)
Theorem handle_success_maps_payload (data : gmap string pyval)
    (quotes author title dynasty translate : option string) (s : State) :
  data !! "quotes" = PStr <$> quotes →
  data !! "author" = PStr <$> author →
  data !! "title" = PStr <$> title →
  data !! "dynasty" = PStr <$> dynasty →
  data !! "translate" = PStr <$> translate →
  let c :=
    {| Plugin.content := PStr (default "无法获取诗词内容" quotes);
       Plugin.author := PStr (default "未知作者" author);
       Plugin.title := PStr (default "未知标题" title);
       Plugin.dynasty := PStr (default "未知朝代" dynasty);
       Plugin.translate := PStr ("翻译：" +:+ default "暂无翻译" translate) |} in
  success_content data = inr c ∧
  handle_success data s = Ok (_update_ui c s).
Proof.
  intros Hq Ha Ht Hd Htr c.
  assert (Hc : success_content data = inr c).
  { unfold success_content, dict_get. rewrite Hq, Ha, Ht, Hd, Htr.
    subst c.
    by destruct quotes, author, title, dynasty, translate. }
  split; [done |]. unfold handle_success. by rewrite Hc.
Qed.

(** C4 on a full payload with the author taken out. *)
Lemma handle_success_maps_payload_witness :
  success_content anonymous
    = inr {| Plugin.content := PStr "床前明月光";
             Plugin.author := PStr "未知作者";
             Plugin.title := PStr "静夜思";
             Plugin.dynasty := PStr "唐";
             Plugin.translate := PStr "翻译：明亮的月光洒在床前" |}.
Proof.
  apply (handle_success_maps_payload anonymous
           (Some "床前明月光") None (Some "静夜思") (Some "唐")
           (Some "明亮的月光洒在床前") fresh); reflexivity.
Defined.

(** A translation that is present but not a string makes the
    concatenation raise, and nothing is displayed. *)
Lemma handle_success_translate_not_str data v s :
  data !! "translate" = Some v →
  (∀ x, v ≠ PStr x) →
  handle_success data s = Raised TypeError s.
Proof.
  intros Hv Hns. unfold handle_success, success_content, dict_get.
  rewrite Hv. destruct v as [| | | | x | |]; try done. by destruct (Hns x).
Qed.

(** ** Display updates that go through *)

Lemma take_all_nil {A} (its : list A) : take_all its = [].
Proof. by induction its. Qed.

(** With the widget and its layout there, and strings for the two text
    labels, the panel ends up showing exactly the three labels of the
    content. *)
Lemma update_widget_content_shows c s id w l x y :
  host_widget s = Some id →
  objects s !! id = Some w →
  contentLayout w = Some l →
  Plugin.content c = PStr x →
  Plugin.translate c = PStr y →
  ∃ s' w',
    update_widget_content c s = Ok s' ∧
    objects s' !! id = Some w' ∧
    shown_texts w'
      = [Plain x; Plain y;
         Attribution (Plugin.dynasty c) (Plugin.author c) (Plugin.title c)] ∧
    single_shots s' = single_shots s ∧
    workers s' = workers s.
Proof.
  intros Hid Hw Hl Hx Hy. unfold update_widget_content. cbn.
  rewrite Hid, Hw, Hl. unfold create_scroll_area. rewrite Hx, Hy. cbn.
  eexists _, _. split; [reflexivity |]. cbn.
  split; [apply lookup_insert_eq |].
  unfold shown_texts. cbn. rewrite take_all_nil. by cbn.
Qed.

(** ** Counting scheduled re-fetches *)

Lemma pending_cons q l :
  length (filter is_retry (q :: l))
    = ((if is_retry q then 1 else 0) + length (filter is_retry l))%nat.
Proof. rewrite filter_cons. by destruct q as [due [c |]]. Qed.

Lemma pending_app l p :
  length (filter is_retry (l ++ [p]))
    = (length (filter is_retry l) + (if is_retry p then 1 else 0))%nat.
Proof.
  rewrite filter_app, length_app. f_equal.
  change [p] with (p :: []). rewrite pending_cons. cbn. lia.
Qed.

Lemma pending_delete l j p :
  l !! j = Some p →
  (length (filter is_retry (delete j l)) + (if is_retry p then 1 else 0))%nat
    = length (filter is_retry l).
Proof.
  revert j. induction l as [| q l IH]; intros [| j] Hj; try done.
  - injection Hj as ->. cbn [delete list_delete]. rewrite pending_cons. lia.
  - cbn in Hj. specialize (IH j Hj).
    change (delete (S j) (q :: l)) with (q :: delete j l).
    rewrite !pending_cons. lia.
Qed.

Lemma length_delete_some {A} (l : list A) j x :
  l !! j = Some x → S (length (delete j l)) = length l.
Proof.
  intros Hj. rewrite length_delete by eauto.
  apply lookup_lt_Some in Hj. lia.
Qed.

(** [handle_failure] adds one re-fetch to those already waiting, whatever
    their number; [update_poetry] adds none, and one worker. *)
Lemma handle_failure_pending s :
  pending_retries (handle_failure s) = S (pending_retries s) ∧
  workers (handle_failure s) = workers s.
Proof.
  unfold pending_retries, handle_failure, _update_ui, QTimer_singleShot.
  cbn. rewrite !pending_app. cbn. split; [lia | done].
Qed.

Lemma update_poetry_pending s :
  pending_retries (update_poetry s) = pending_retries s ∧
  workers (update_poetry s) = workers s ++ [now s].
Proof.
  unfold pending_retries, update_poetry, _show_loading, _update_ui,
    QTimer_singleShot.
  cbn. rewrite pending_app. cbn. split; [lia | done].
Qed.

(** ** Steps of the loop *)

Lemma worker_failure_step s i net started tr :
  workers s !! i = Some started →
  run net = Some tr →
  signals tr = [fetch_failed] →
  started + slept_ms tr ≤ now s →
  step s (WorkerDone i net)
    = Some (Ok (handle_failure (set_workers (delete i (workers s)) s))).
Proof.
  intros Hw Hrun Hsig Hnow. cbn [step]. rewrite Hw, Hrun.
  apply Z.leb_le in Hnow. rewrite Hnow. unfold deliver. by rewrite Hsig.
Qed.

Lemma update_poetry_effect s :
  journal (update_poetry s)
    = journal s ++ [singleShot 0 (call_update_widget_content default_content);
                    worker_thread_start] ∧
  single_shots (update_poetry s)
    = single_shots s ++ [(now s, call_update_widget_content default_content)] ∧
  workers (update_poetry s) = workers s ++ [now s] ∧
  host_widget (update_poetry s) = host_widget s ∧
  objects (update_poetry s) = objects s ∧
  now (update_poetry s) = now s.
Proof. cbn. by rewrite <- app_assoc, Z.add_0_r. Qed.

Lemma advance_step s dt :
  0 ≤ dt → step s (Advance dt) = Some (Ok (set_now (now s + dt) s)).
Proof. intros Hdt. cbn [step]. apply Z.leb_le in Hdt. by rewrite Hdt. Qed.

Lemma fire_step s j due cb :
  single_shots s !! j = Some (due, cb) →
  due ≤ now s →
  step s (SingleShot j)
    = Some (call cb (set_single_shots (delete j (single_shots s)) s)).
Proof.
  intros Hj Hdue. cbn [step]. rewrite Hj.
  apply Z.leb_le in Hdue. by rewrite Hdue.
Qed.

Lemma fire_early s j due cb :
  single_shots s !! j = Some (due, cb) →
  now s < due →
  step s (SingleShot j) = None.
Proof.
  intros Hj Hdue. cbn [step]. rewrite Hj.
  apply Z.leb_gt in Hdue. by rewrite Hdue.
Qed.

(** C5.  When a worker reports terminal failure, the slot schedules the
    error text for display and one re-fetch, five minutes ahead, and
    nothing else; on a panel that is there the error text is what gets
    shown; the re-fetch cannot fire before the five minutes are over, and
    when it fires it first schedules the loading text and then starts a
    worker, the loading text being what the panel shows next. *)
Theorem failure_shows_error_then_retries s i net started tr :
  workers s !! i = Some started →
  run net = Some tr →
  signals tr = [fetch_failed] →
  started + slept_ms tr ≤ now s →
  ∃ s1,
    step s (WorkerDone i net) = Some (Ok s1) ∧
    journal s1
      = journal s ++
        [singleShot 0 (call_update_widget_content error_content);
         singleShot (5 * 60 * 1000) call_update_poetry] ∧
    single_shots s1
      = single_shots s ++
        [(now s, call_update_widget_content error_content);
         (now s + 5 * 60 * 1000, call_update_poetry)] ∧
    pending_retries s1 = S (pending_retries s) ∧
    (∀ id w l,
       host_widget s = Some id → objects s !! id = Some w →
       contentLayout w = Some l →
       ∃ s2 w2,
         step s1 (SingleShot (length (single_shots s))) = Some (Ok s2) ∧
         objects s2 !! id = Some w2 ∧
         shown_texts w2
           = [Plain "数据获取失败"; Plain "请检查网络连接";
              Attribution (PStr "5分钟后重试") (PStr "系统") (PStr "错误")]) ∧
    (∀ dt, 0 ≤ dt < 5 * 60 * 1000 →
       exec s1 [Advance dt; SingleShot (S (length (single_shots s)))]
         = None) ∧
    (∀ dt, 5 * 60 * 1000 ≤ dt →
       ∃ s3,
         exec s1 [Advance dt; SingleShot (S (length (single_shots s)))]
           = Some (Ok s3) ∧
         journal s3
           = journal s1 ++
             [singleShot 0 (call_update_widget_content default_content);
              worker_thread_start] ∧
         workers s3 = workers s1 ++ [now s + dt] ∧
         pending_retries s3 = pending_retries s ∧
         (∀ id w l,
            host_widget s = Some id → objects s !! id = Some w →
            contentLayout w = Some l →
            ∃ s4 w4,
              step s3 (SingleShot (S (length (single_shots s))))
                = Some (Ok s4) ∧
              objects s4 !! id = Some w4 ∧
              shown_texts w4
                = [Plain "正在加载诗词..."; Plain "正在从服务器获取数据";
                   Attribution (PStr "请稍候") (PStr "系统")
                     (PStr "加载中")])).
Proof.
  intros Hw Hrun Hsig Hnow.
  eexists. split; [by eapply worker_failure_step |].
  set (s0 := set_workers (delete i (workers s)) s).
  set (shots := single_shots s).
  assert (Hshots : single_shots (handle_failure s0)
            = shots ++ [(now s, call_update_widget_content error_content);
                        (now s + 5 * 60 * 1000, call_update_poetry)]).
  { cbn. rewrite <- app_assoc. by rewrite Z.add_0_r. }
  assert (Herr : single_shots (handle_failure s0) !! length shots
            = Some (now s, call_update_widget_content error_content)).
  { rewrite Hshots. by apply list_lookup_middle. }
  assert (Hretry : single_shots (handle_failure s0) !! S (length shots)
            = Some (now s + 5 * 60 * 1000, call_update_poetry)).
  { rewrite Hshots.
    change (shots ++ [?a; ?b]) with (shots ++ [a] ++ [b]).
    rewrite app_assoc. apply list_lookup_middle.
    rewrite length_app. cbn. lia. }
  split; [| split; [exact Hshots | split; [| split; [| split]]]].
  - cbn. by rewrite <- app_assoc.
  - by destruct (handle_failure_pending s0) as [-> _].
  - intros id w l Hid Hobj Hl.
    erewrite fire_step; [| exact Herr | cbn; lia]. cbn [call].
    destruct (update_widget_content_shows error_content
                (set_single_shots
                   (delete (length shots) (single_shots (handle_failure s0)))
                   (handle_failure s0))
                id w l _ _ Hid Hobj Hl eq_refl eq_refl)
      as (s2 & w2 & Hup & Hw2 & Htexts & _).
    exists s2, w2. by rewrite Hup.
  - intros dt Hdt. cbn [exec]. rewrite advance_step by lia.
    erewrite fire_early; [done | exact Hretry | cbn; lia].
  - intros dt Hdt. cbn [exec]. rewrite advance_step by lia.
    erewrite fire_step; [| exact Hretry | cbn; lia]. cbn [call].
    eexists. split; [reflexivity |].
    assert (Hdel : delete (S (length shots)) (single_shots (handle_failure s0))
              = shots ++ [(now s, call_update_widget_content error_content)]).
    { rewrite Hshots.
      change (shots ++ [?a; ?b]) with (shots ++ [a] ++ [b]).
      rewrite app_assoc.
      replace (S (length shots))
        with (length (shots ++ [(now s, call_update_widget_content error_content)]))
        by (rewrite length_app; cbn; lia).
      rewrite delete_middle. by rewrite app_nil_r. }
    match goal with
    | |- context [update_poetry ?st] =>
        set (s2 := st);
        destruct (update_poetry_effect s2)
          as (Hj & Hs & Hwk & Hhw & Hob & Hnw)
    end.
    replace (single_shots s2)
      with (shots ++ [(now s, call_update_widget_content error_content)])
      in Hs by (symmetry; exact Hdel).
    split; [| split; [| split]].
    + by rewrite Hj.
    + by rewrite Hwk.
    + unfold pending_retries. rewrite Hs, !pending_app. cbn.
      unfold shots. lia.
    + intros id w l Hid Hobj Hl.
      erewrite fire_step;
        [| rewrite Hs; apply list_lookup_middle; rewrite length_app; cbn; lia
         | rewrite Hnw; cbn; lia ].
      cbn [call].
      match goal with
      | |- ∃ _ _, Some (update_widget_content _ ?st) = _ ∧ _ =>
          destruct (update_widget_content_shows default_content st
                      id w l _ _ Hid Hobj Hl eq_refl eq_refl)
            as (s4 & w4 & Hup & Hw4 & Htexts & _)
      end.
      exists s4, w4. by rewrite Hup.
Qed.

(** C5 on the sample plugin, six seconds after the start with the network
    down. *)
Lemma failure_shows_error_then_retries_witness :
  ∃ s1,
    step waiting (WorkerDone 0 net_down) = Some (Ok s1) ∧
    single_shots s1
      = [(6000, call_update_widget_content error_content);
         (306000, call_update_poetry)] ∧
    pending_retries s1 = 1%nat.
Proof.
  destruct (failure_shows_error_then_retries waiting 0 net_down 0
              [Request; LogError (ConnectionError "connection refused");
               Sleep 2;
               Request; LogError (ConnectionError "connection refused");
               Sleep 2;
               Request; LogError (ConnectionError "connection refused");
               Sleep 2; fetch_failed])
    as (s1 & Hstep & _ & Hshots & Hpending & _).
  - reflexivity.
  - reflexivity.
  - reflexivity.
  - vm_compute. discriminate.
  - exists s1. split; [exact Hstep |]. split; [exact Hshots | exact Hpending].
Defined.

(** ** Cycles under way *)

(** Neither the scroll tick nor the display update touches the single
    shots or the workers, however they end. *)
Lemma auto_scroll_frame s :
  single_shots (state_of (auto_scroll s)) = single_shots s ∧
  workers (state_of (auto_scroll s)) = workers s.
Proof.
  unfold auto_scroll.
  destruct (test_widget s) as [| [id |]]; [done | | done].
  destruct (objects s !! id) as [w |]; [| done].
  destruct (findChild_SmoothScrollArea w) as [sa |]; [| done].
  destruct (verticalScrollBar sa) as [sb |]; [| done].
  by destruct (scroll_position s >=? sb_maximum sb).
Qed.

Lemma update_widget_content_frame c s :
  single_shots (state_of (update_widget_content c s)) = single_shots s ∧
  workers (state_of (update_widget_content c s)) = workers s.
Proof.
  unfold update_widget_content. cbn.
  destruct (host_widget s) as [id |]; [| done].
  destruct (objects s !! id) as [w |]; [| done].
  destruct (contentLayout w) as [l |]; [| done].
  by destruct (create_scroll_area _ _ _ _ _ _).
Qed.

(** A step adds a cycle only when it is a refresh tick or [execute]. *)
Lemma step_cycles s i s' :
  step s i = Some (Ok s') →
  (cycles s' ≤ cycles s + (if starts_cycle i then 1 else 0))%nat.
Proof.
  unfold cycles.
  destruct i as [dt | | | j | | j net]; cbn [step starts_cycle]; intros Hstep.
  - destruct (0 <=? dt); [| done]. injection Hstep as <-.
    unfold pending_retries. cbn. lia.
  - destruct (scroll_due s <=? now s); [| done].
    injection Hstep as Hstep.
    match type of Hstep with
    | auto_scroll ?st = _ => destruct (auto_scroll_frame st) as [Hs Hw]
    end.
    rewrite Hstep in Hs, Hw. cbn in Hs, Hw.
    unfold pending_retries. rewrite Hs, Hw. lia.
  - destruct (refresh_due s <=? now s); [| done]. injection Hstep as <-.
    match goal with
    | |- context [update_poetry ?st] =>
        destruct (update_poetry_pending st) as [-> ->]
    end.
    rewrite length_app. unfold pending_retries. cbn. lia.
  - destruct (single_shots s !! j) as [[due cb] |] eqn:Hj; [| done].
    destruct (due <=? now s); [| done]. injection Hstep as Hstep.
    pose proof (pending_delete _ _ _ Hj) as Hdel.
    destruct cb as [c |]; cbn [call] in Hstep.
    + match type of Hstep with
      | update_widget_content _ ?st = _ =>
          destruct (update_widget_content_frame c st) as [Hs Hw]
      end.
      rewrite Hstep in Hs, Hw. cbn in Hs, Hw, Hdel.
      unfold pending_retries. rewrite Hs, Hw. lia.
    + injection Hstep as <-.
      match goal with
      | |- context [update_poetry ?st] =>
          destruct (update_poetry_pending st) as [-> ->]
      end.
      rewrite length_app. unfold pending_retries. cbn in *. lia.
  - injection Hstep as <-. unfold execute.
    destruct (update_poetry_pending s) as [-> ->].
    rewrite length_app. cbn. lia.
  - destruct (workers s !! j) as [started |] eqn:Hj; [| done].
    destruct (run net) as [tr |]; [| done].
    destruct (started + slept_ms tr <=? now s); [| done].
    pose proof (length_delete_some _ _ _ Hj) as Hlen.
    unfold deliver in Hstep.
    destruct (signals tr) as [| [| | | data |] [|]]; try done.
    + unfold handle_success in Hstep.
      destruct (success_content data) as [e | c]; [done |].
      injection Hstep as <-. unfold pending_retries. cbn.
      rewrite pending_app. cbn. lia.
    + injection Hstep as <-.
      match goal with
      | |- context [handle_failure ?st] =>
          destruct (handle_failure_pending st) as [-> ->]
      end.
      unfold pending_retries. cbn. lia.
Qed.

(** So a run that starts with at most one cycle under way, and in which a
    refresh tick or [execute] comes only when none is, never has two. *)
Lemma cycles_bounded ins : ∀ s s',
  (cycles s ≤ 1)%nat →
  overlap_free s ins = true →
  exec s ins = Some (Ok s') →
  (cycles s' ≤ 1)%nat.
Proof.
  induction ins as [| i rest IH]; intros s s' Hone Hfree Hexec.
  - cbn in Hexec. by injection Hexec as <-.
  - cbn [overlap_free exec] in Hfree, Hexec.
    apply andb_true_iff in Hfree as [Hguard Hfree].
    destruct (step s i) as [[s1 | e s1] |] eqn:Hstep.
    + apply (IH s1 s'); [| done | done].
      pose proof (step_cycles _ _ _ Hstep) as Hle.
      destruct (starts_cycle i); [| lia].
      apply Nat.eqb_eq in Hguard. lia.
    + by destruct rest.
    + done.
Qed.

(** C8, amended.  From a freshly built plugin, as long as the refresh
    timer and [execute] start a cycle only when no re-fetch is waiting and
    no worker is running, at most one scheduled re-fetch waits at any
    time, and never while a worker runs. *)
Theorem one_retry_without_overlap
    (host_widget : option nat) (objects : gmap nat QWidget)
    (dark_theme : bool) (panel_extent : Z) (ins : list input) (s : State) :
  overlap_free (__init__ host_widget objects dark_theme panel_extent) ins
    = true →
  exec (__init__ host_widget objects dark_theme panel_extent) ins
    = Some (Ok s) →
  (pending_retries s ≤ 1)%nat ∧
  (pending_retries s + length (workers s) ≤ 1)%nat.
Proof.
  intros Hfree Hexec.
  assert (Hinit : (cycles (__init__ host_widget objects dark_theme
                             panel_extent) ≤ 1)%nat)
    by (vm_compute; lia).
  pose proof (cycles_bounded ins _ s Hinit Hfree Hexec) as Hle.
  unfold cycles in Hle. lia.
Qed.

(** Two exhausted cycles in a row, the second started by the re-fetch of
    the first: one re-fetch is waiting at the end. *)
Lemma one_retry_without_overlap_witness :
  (pending_retries after_two_failures ≤ 1)%nat ∧
  (pending_retries after_two_failures
     + length (workers after_two_failures) ≤ 1)%nat.
Proof.
  apply (one_retry_without_overlap (Some 7%nat) panel false 3 two_failures).
  - vm_compute. reflexivity.
  - vm_compute. reflexivity.
Defined.

Example after_two_failures_pending :
  pending_retries after_two_failures = 1%nat.
Proof. vm_compute. reflexivity. Qed.

(** C8 as stated fails.  With the network down from the start, the
    re-fetch scheduled at 7 044 000 ms is still waiting when the two-hour
    refresh tick starts a cycle of its own at 7 200 000 ms; that cycle
    fails at 7 206 000 ms and [handle_failure] schedules a second
    re-fetch next to the first. *)
Lemma two_retries_pending :
  exec fresh two_hours_down = Some (Ok after_two_hours_down) ∧
  now after_two_hours_down = 7206000 ∧
  filter is_retry (single_shots after_two_hours_down)
    = [(7344000, call_update_poetry); (7506000, call_update_poetry)] ∧
  pending_retries after_two_hours_down = 2%nat ∧
  ¬ retries_never_overlap.
Proof.
  assert (Hexec : exec fresh two_hours_down = Some (Ok after_two_hours_down))
    by (vm_compute; reflexivity).
  split; [exact Hexec |].
  split; [vm_compute; reflexivity |].
  split; [vm_compute; reflexivity |].
  split; [vm_compute; reflexivity |].
  intros Hnever.
  specialize (Hnever (Some 7%nat) panel false 3 two_hours_down
                after_two_hours_down Hexec).
  vm_compute in Hnever. lia.
Qed.

End PluginFacts.

(** * More about the worker *)

Module RunShape.
Import PoetryFetchThread EventLoop Samples Reading RunFacts.

(** ** Projections of a sequence of failed turns *)

Lemma turns_S net i n : turns net i (S n) = turn (net i) ++ turns net (S i) n.
Proof. reflexivity. Qed.

Lemma turn_failed_turn r : failed r → failed_turn (turn r) = true.
Proof.
  intros Hf. unfold turn, logged.
  destruct (try_block r) as [d | | e] eqn:Hb; [by destruct (Hf d) | done | done].
Qed.

Lemma slept_ms_app tr1 tr2 : slept_ms (tr1 ++ tr2) = slept_ms tr1 + slept_ms tr2.
Proof.
  induction tr1 as [| e tr1 IH]; [done |].
  destruct e; cbn [app slept_ms]; lia.
Qed.

Lemma slept_ms_turn r : slept_ms (turn r) = 2000.
Proof. unfold turn, logged. by destruct (try_block r). Qed.

Lemma logs_turn r rest : logs (turn r ++ rest) = logged r ++ logs rest.
Proof. unfold turn, logged, logs. by destruct (try_block r). Qed.

Lemma in_turn_cases t rest e :
  failed_turn t = true → e ∈ t ++ rest →
  e = Request ∨ is_log e = true ∨ e = Sleep retry_delay ∨ e ∈ rest.
Proof.
  intros Ht [Hin | Hin]%elem_of_app; [| auto].
  turn_cases Ht;
    repeat (apply elem_of_cons in Hin as [-> | Hin]; [by auto |]);
    by apply elem_of_nil in Hin.
Qed.

(** Every trace is a number of failed turns followed by one ending. *)
Lemma run_loop_shape net : ∀ fuel i,
  (max_retries - i < fuel)%nat → (i ≤ max_retries)%nat →
  ∃ n,
    (∀ j, (i ≤ j < i + n)%nat → failed (net j)) ∧
    (((i + n < max_retries)%nat ∧
      ∃ d, try_block (net (i + n)%nat) = Emitted d ∧
           run_loop fuel net i
             = Some (turns net i n ++ [Request; fetch_success d])) ∨
     ((i + n)%nat = max_retries ∧
      run_loop fuel net i = Some (turns net i n ++ [fetch_failed]))).
Proof.
  induction fuel as [| fuel IH]; intros i Hfuel Hi; [lia |].
  cbn [run_loop]. destruct (i <? max_retries)%nat eqn:Hlt.
  - apply Nat.ltb_lt in Hlt.
    destruct (try_block (net i)) as [d | | e] eqn:Hb.
    + exists 0%nat. split; [intros j Hj; lia |]. left.
      rewrite Nat.add_0_r. split; [done |]. by exists d.
    + destruct (IH (S i)) as (n & Hfail & Hend); [lia | lia |].
      exists (S n). split.
      * intros j Hj. destruct (decide (j = i)) as [-> | Hne].
        -- intros d. by rewrite Hb.
        -- apply Hfail. lia.
      * rewrite turns_S.
        replace (turn (net i)) with (Request :: logged (net i) ++ [Sleep retry_delay])
          by done.
        unfold logged. rewrite Hb. cbn [app].
        replace (i + S n)%nat with (S i + n)%nat by lia.
        destruct Hend as [(Hk & d & Hd & ->) | (Hk & ->)];
          [left; split; [done |]; by exists d | by right].
    + destruct (IH (S i)) as (n & Hfail & Hend); [lia | lia |].
      exists (S n). split.
      * intros j Hj. destruct (decide (j = i)) as [-> | Hne].
        -- intros d. by rewrite Hb.
        -- apply Hfail. lia.
      * rewrite turns_S.
        replace (turn (net i)) with (Request :: logged (net i) ++ [Sleep retry_delay])
          by done.
        unfold logged. rewrite Hb. cbn [app].
        replace (i + S n)%nat with (S i + n)%nat by lia.
        destruct Hend as [(Hk & d & Hd & ->) | (Hk & ->)];
          [left; split; [done |]; by exists d | by right].
  - apply Nat.ltb_ge in Hlt. exists 0%nat.
    split; [intros j Hj; lia |]. right. split; [lia | done].
Qed.

Lemma run_shape net :
  ∃ n,
    (∀ j, (j < n)%nat → failed (net j)) ∧
    (((n < max_retries)%nat ∧
      ∃ d, try_block (net n) = Emitted d ∧
           run net = Some (turns net 0 n ++ [Request; fetch_success d])) ∨
     (n = max_retries ∧ run net = Some (turns net 0 n ++ [fetch_failed]))).
Proof.
  destruct (run_loop_shape net (S max_retries) 0) as (n & Hfail & Hend);
    [lia | lia |].
  exists n. split; [intros j Hj; apply Hfail; lia | exact Hend].
Qed.

(** Projections of [n] failed turns in front of the rest of a trace. *)
Lemma turns_project net : ∀ n i rest,
  (∀ j, (i ≤ j < i + n)%nat → failed (net j)) →
  signals (turns net i n ++ rest) = signals rest ∧
  requests (turns net i n ++ rest) = (n + requests rest)%nat ∧
  sleeps (turns net i n ++ rest) = (n + sleeps rest)%nat ∧
  slept_ms (turns net i n ++ rest) = 2000 * Z.of_nat n + slept_ms rest ∧
  logs (turns net i n ++ rest)
    = flat_map (λ j, logged (net j)) (seq i n) ++ logs rest ∧
  (∀ x, last rest = Some x → last (turns net i n ++ rest) = Some x) ∧
  (∀ e, e ∈ turns net i n ++ rest → is_signal e = true → e ∈ rest).
Proof.
  induction n as [| n IH]; intros i rest Hfail.
  - cbn. repeat split; auto; lia.
  - rewrite turns_S, <- app_assoc.
    assert (Ht : failed_turn (turn (net i)) = true)
      by (apply turn_failed_turn, Hfail; lia).
    destruct (IH (S i) rest) as (Hsig & Hreq & Hsl & Hms & Hlog & Hlast & Hin);
      [intros j Hj; apply Hfail; lia |].
    rewrite signals_turn, requests_turn, sleeps_turn by done.
    rewrite slept_ms_app, slept_ms_turn, logs_turn.
    rewrite Hsig, Hreq, Hsl, Hms, Hlog.
    split; [done |]. split; [done |]. split; [done |].
    split; [lia |].
    split; [cbn [seq flat_map]; by rewrite <- app_assoc |]. split.
    + intros x Hx. apply last_turn; auto.
    + intros e He Hs.
      destruct (in_turn_cases _ _ _ Ht He) as [-> | [Hl | [-> | Hrest]]];
        [done | by destruct e | done | by apply Hin].
Qed.

Lemma ending_success d :
  requests [Request; fetch_success d] = 1%nat ∧
  sleeps [Request; fetch_success d] = 0%nat ∧
  slept_ms [Request; fetch_success d] = 0 ∧
  logs [Request; fetch_success d] = [].
Proof. done. Qed.

Lemma ending_failed :
  requests [fetch_failed] = 0%nat ∧
  sleeps [fetch_failed] = 0%nat ∧
  slept_ms [fetch_failed] = 0 ∧
  logs [fetch_failed] = [].
Proof. done. Qed.

(** A run that reports failure slept six seconds. *)
Lemma failed_run_sleeps net tr :
  run net = Some tr → signals tr = [fetch_failed] → slept_ms tr = 6000.
Proof.
  intros Hrun Hsig.
  destruct (run_shape net)
    as (n & Hfail & [(Hn & d & Hd & Hrun') | (Hn & Hrun')]);
    rewrite Hrun in Hrun'; injection Hrun' as ->.
  - destruct (turns_project net n 0 [Request; fetch_success d])
      as (Hsig' & _); [intros j Hj; apply Hfail; lia |].
    by rewrite Hsig' in Hsig.
  - destruct (turns_project net n 0 [fetch_failed])
      as (_ & _ & _ & Hms & _); [intros j Hj; apply Hfail; lia |].
    rewrite Hms. subst n. destruct ending_failed as (_ & _ & -> & _).
    unfold max_retries. lia.
Qed.

(** X1.  Whatever the network does, the run ends, and it ends with its one
    and only signal, after one to three requests. *)
Theorem run_ends_with_one_signal (net : nat → reply) :
  ∃ tr sig,
    run net = Some tr ∧
    signals tr = [sig] ∧
    last tr = Some sig ∧
    (1 ≤ requests tr ≤ 3)%nat.
Proof.
  destruct (run_shape net)
    as (n & Hfail & [(Hn & d & Hd & Hrun) | (Hn & Hrun)]).
  - destruct (turns_project net n 0 [Request; fetch_success d])
      as (Hsig & Hreq & _ & _ & _ & Hlast & _);
      [intros j Hj; apply Hfail; lia |].
    eexists _, (fetch_success d). split; [exact Hrun |].
    rewrite Hsig, Hreq. unfold max_retries in Hn.
    destruct (ending_success d) as (-> & _).
    split; [done |]. split; [by apply Hlast |]. lia.
  - destruct (turns_project net n 0 [fetch_failed])
      as (Hsig & Hreq & _ & _ & _ & Hlast & _);
      [intros j Hj; apply Hfail; lia |].
    eexists _, fetch_failed. split; [exact Hrun |].
    rewrite Hsig, Hreq. unfold max_retries in Hn.
    destruct ending_failed as (-> & _).
    split; [done |]. split; [by apply Hlast |]. lia.
Qed.

(** X2.  An attempt emits [fetch_success d] exactly when the reply has a
    status that is not 4xx or 5xx and a JSON object whose ["data"] is the
    non-empty object [d]. *)
Theorem emits_iff_carries (r : reply) (d : gmap string pyval) :
  try_block r = Emitted d ↔ carries r d.
Proof. split; [apply emitted_carries | apply carries_emitted]. Qed.

(** X3.  When the trace of a run has [fetch_success d], [d] is the
    non-empty [data] of the first reply that carries one, that reply is
    among the first three, every attempt before it failed, and the
    request that got it was the last one made. *)
Theorem success_is_first_carrying_reply (net : nat → reply)
    (tr : list event) (d : gmap string pyval) :
  run net = Some tr →
  fetch_success d ∈ tr →
  ∃ k, (k < 3)%nat ∧
       carries (net k) d ∧
       (∀ j, (j < k)%nat → failed (net j)) ∧
       requests tr = S k.
Proof.
  intros Hrun Hin.
  destruct (run_shape net)
    as (n & Hfail & [(Hn & d' & Hd & Hrun') | (Hn & Hrun')]);
    rewrite Hrun in Hrun'; injection Hrun' as ->.
  - destruct (turns_project net n 0 [Request; fetch_success d'])
      as (_ & Hreq & _ & _ & _ & _ & Hsigin);
      [intros j Hj; apply Hfail; lia |].
    apply Hsigin in Hin; [| done].
    apply elem_of_cons in Hin as [Hin | Hin]; [done |].
    apply elem_of_cons in Hin as [Hin | Hin]; [| by apply elem_of_nil in Hin].
    injection Hin as ->. exists n.
    split; [exact Hn |]. split; [by apply emitted_carries |].
    split; [exact Hfail |]. rewrite Hreq.
    rewrite (proj1 (ending_success _)). lia.
  - destruct (turns_project net n 0 [fetch_failed])
      as (_ & _ & _ & _ & _ & _ & Hsigin);
      [intros j Hj; apply Hfail; lia |].
    apply Hsigin in Hin; [| done]. not_listed Hin.
Qed.

Lemma success_is_first_carrying_reply_witness :
  ∃ k, (k < 3)%nat ∧
       carries (net_flaky k) poem ∧
       (∀ j, (j < k)%nat → failed (net_flaky j)) ∧
       requests
         [Request; LogError (ConnectionError "timed out"); Sleep 2;
          Request; LogError (HTTPError 503); Sleep 2;
          Request; fetch_success poem] = S k.
Proof.
  apply (success_is_first_carrying_reply net_flaky).
  - reflexivity.
  - apply list_elem_of_lookup. by exists 7%nat.
Defined.

(** X4.  A run reports [fetch_failed] exactly when all three attempts
    failed: it never gives up while an attempt can still succeed, and it
    never reports failure after a success. *)
Theorem fetch_failed_iff_all_failed (net : nat → reply) (tr : list event) :
  run net = Some tr →
  (fetch_failed ∈ tr ↔ ∀ i, (i < max_retries)%nat → failed (net i)).
Proof.
  intros Hrun.
  destruct (run_shape net)
    as (n & Hfail & [(Hn & d & Hd & Hrun') | (Hn & Hrun')]);
    rewrite Hrun in Hrun'; injection Hrun' as ->.
  - destruct (turns_project net n 0 [Request; fetch_success d])
      as (_ & _ & _ & _ & _ & _ & Hsigin);
      [intros j Hj; apply Hfail; lia |].
    split.
    + intros Hin. apply Hsigin in Hin; [| done]. not_listed Hin.
    + intros Hall. destruct (Hall n Hn d Hd).
  - subst n. split; [intros _; exact Hfail |].
    intros _. apply elem_of_app. right. by apply list_elem_of_singleton.
Qed.

Lemma fetch_failed_iff_all_failed_witness :
  fetch_failed ∈
    [Request; LogError (ConnectionError "connection refused"); Sleep 2;
     Request; LogError (ConnectionError "connection refused"); Sleep 2;
     Request; LogError (ConnectionError "connection refused"); Sleep 2;
     fetch_failed]
  ↔ ∀ i, (i < max_retries)%nat → failed (net_down i).
Proof. apply (fetch_failed_iff_all_failed net_down). reflexivity. Defined.

(** X5.  The time a run spends asleep is two seconds for every failed
    attempt: at most six seconds, exactly six before [fetch_failed], and
    on success one sleep fewer than requests (none after the attempt
    that succeeded). *)
Theorem sleep_accounting (net : nat → reply) (tr : list event) :
  run net = Some tr →
  slept_ms tr = 2000 * Z.of_nat (sleeps tr) ∧
  slept_ms tr ≤ 6000 ∧
  (fetch_failed ∈ tr → slept_ms tr = 6000) ∧
  (∀ d, fetch_success d ∈ tr → S (sleeps tr) = requests tr).
Proof.
  intros Hrun.
  destruct (run_shape net)
    as (n & Hfail & [(Hn & d & Hd & Hrun') | (Hn & Hrun')]);
    rewrite Hrun in Hrun'; injection Hrun' as ->.
  - destruct (turns_project net n 0 [Request; fetch_success d])
      as (_ & Hreq & Hsl & Hms & _ & _ & Hsigin);
      [intros j Hj; apply Hfail; lia |].
    rewrite Hms, Hsl, Hreq. unfold max_retries in Hn.
    destruct (ending_success d) as (-> & -> & -> & _).
    split; [lia |]. split; [lia |]. split; [| intros; lia].
    intros Hin. apply Hsigin in Hin; [| done]. not_listed Hin.
  - destruct (turns_project net n 0 [fetch_failed])
      as (_ & Hreq & Hsl & Hms & _ & _ & Hsigin);
      [intros j Hj; apply Hfail; lia |].
    rewrite Hms, Hsl, Hreq. unfold max_retries in Hn. subst n.
    destruct ending_failed as (-> & -> & -> & _).
    split; [lia |]. split; [lia |]. split; [lia |].
    intros d Hin. apply Hsigin in Hin; [| done]. not_listed Hin.
Qed.

Lemma sleep_accounting_witness :
  slept_ms [Request; LogError (ConnectionError "timed out"); Sleep 2;
            Request; LogError (HTTPError 503); Sleep 2;
            Request; fetch_success poem] = 4000.
Proof.
  destruct (sleep_accounting net_flaky
              [Request; LogError (ConnectionError "timed out"); Sleep 2;
               Request; LogError (HTTPError 503); Sleep 2;
               Request; fetch_success poem] eq_refl) as (Hms & _).
  rewrite Hms. reflexivity.
Defined.

(** X6.  The log lines of a run are those of its failed attempts, in
    order: one line for an attempt that raised, none for an attempt whose
    [data] was merely missing or empty, none for the one that succeeded. *)
Theorem log_lines_of_run (net : nat → reply) (tr : list event) :
  run net = Some tr →
  logs tr = flat_map (λ j, logged (net j)) (seq 0 (sleeps tr)).
Proof.
  intros Hrun.
  destruct (run_shape net)
    as (n & Hfail & [(Hn & d & Hd & Hrun') | (Hn & Hrun')]);
    rewrite Hrun in Hrun'; injection Hrun' as ->.
  - destruct (turns_project net n 0 [Request; fetch_success d])
      as (_ & _ & Hsl & _ & Hlog & _);
      [intros j Hj; apply Hfail; lia |].
    rewrite Hlog, Hsl.
    destruct (ending_success d) as (_ & -> & _ & ->).
    by rewrite app_nil_r, Nat.add_0_r.
  - destruct (turns_project net n 0 [fetch_failed])
      as (_ & _ & Hsl & _ & Hlog & _);
      [intros j Hj; apply Hfail; lia |].
    rewrite Hlog, Hsl.
    destruct ending_failed as (_ & -> & _ & ->).
    by rewrite app_nil_r, Nat.add_0_r.
Qed.

Lemma log_lines_of_run_witness :
  logs [Request; Sleep 2; Request; Sleep 2; Request; Sleep 2; fetch_failed]
    = flat_map (λ j, logged (net_empty j)) (seq 0 3).
Proof. apply (log_lines_of_run net_empty). reflexivity. Defined.

(** X7.  With a status that does not raise, a body that is not JSON, a
    JSON value that is not an object, and an object whose ["data"] is
    true but not an object are all caught and logged as exceptions
    ([JSONDecodeError], [AttributeError], [TypeError]); none of them
    emits. *)
Theorem malformed_body_is_caught (status : Z) :
  raises_for_status status = false →
  try_block (Response status None) = Caught JSONDecodeError ∧
  (∀ json, (∀ m, json ≠ PDict m) →
     try_block (Response status (Some json))
       = Caught (AttributeError "get")) ∧
  (∀ body v,
     body !! "data" = Some v → truthy v = true → (∀ m, v ≠ PDict m) →
     try_block (Response status (Some (PDict body))) = Caught TypeError).
Proof.
  intros Hst. unfold try_block. rewrite Hst. split; [done |]. split.
  - intros json Hnd. destruct json as [| | | | | | m]; try done.
    by destruct (Hnd m).
  - intros body v Hv Htrue Hnd. cbn. unfold dict_get. rewrite Hv, Htrue.
    destruct v as [| | | | | | m]; try done. by destruct (Hnd m).
Qed.

Lemma malformed_body_is_caught_witness :
  try_block (Response 200 (Some (PDict (<["data" := PStr "poem"]> ∅))))
    = Caught TypeError.
Proof.
  destruct (malformed_body_is_caught 200 eq_refl) as (_ & _ & Hdata).
  apply (Hdata (<["data" := PStr "poem"]> ∅) (PStr "poem")); done.
Defined.

End RunShape.

(** * More about the controller *)

Module PluginMore.
Import PoetryFetchThread Plugin EventLoop Samples Reading PluginFacts RunShape.

(** ** What [handle_success] does with a payload *)

Lemma str_add_outcome a v :
  (is_str v = true → ∃ x, v = PStr x ∧ str_add a v = inr (PStr (a +:+ x))) ∧
  (is_str v = false → str_add a v = inl TypeError).
Proof. destruct v; split; try done; intros _; eauto. Qed.

(** X8.  [handle_success] raises only [TypeError], only when the payload
    has a ["translate"] that is not a string, and then it leaves the
    plugin as it was; otherwise it returns after scheduling one display
    update and nothing else: no worker, no re-fetch, no change to the
    panel yet. *)
Theorem handle_success_outcome (data : gmap string pyval) (s : State) :
  (∀ e s', handle_success data s = Raised e s' ↔
           e = TypeError ∧ s' = s ∧
           ∃ v, data !! "translate" = Some v ∧ is_str v = false) ∧
  (∀ s', handle_success data s = Ok s' →
         ∃ c, success_content data = inr c ∧
              journal s'
                = journal s ++ [singleShot 0 (call_update_widget_content c)] ∧
              single_shots s'
                = single_shots s ++ [(now s, call_update_widget_content c)] ∧
              workers s' = workers s ∧
              objects s' = objects s ∧
              test_widget s' = test_widget s).
Proof.
  unfold handle_success, success_content, dict_get. split.
  - intros e s'. destruct (data !! "translate") as [v |] eqn:Hv.
    + destruct (str_add_outcome "翻译：" v) as [Hstr Hns].
      destruct (is_str v) eqn:Hv'.
      * destruct (Hstr eq_refl) as (x & -> & ->). split; [done |].
        intros (_ & _ & v' & [= <-] & Hf). done.
      * rewrite (Hns eq_refl). split.
        -- intros [= <- <-]. eauto.
        -- by intros (-> & -> & _).
    + cbn. split; [done |]. by intros (_ & _ & v & Hv' & _).
  - intros s'.
    destruct (str_add "翻译：" _) as [e | t]; [done |].
    intros [= <-]. eexists. split; [reflexivity |]. cbn.
    by rewrite Z.add_0_r.
Qed.

(** ** Display updates *)

(** The host widget holding one scroll area in a layout of spacing 5. *)
Lemma create_scroll_area_strings s c a t d tr :
  is_str c = true → is_str tr = true →
  ∃ x y, c = PStr x ∧ tr = PStr y ∧
    create_scroll_area s c a t d tr
      = inr {| vScrollBar := Some {| sb_maximum := panel_extent s;
                                     sb_value := 0; sb_ani := None |};
               sa_resizable := true;
               sa_content :=
                 {| spacing := 0;
                    items :=
                      [ {| lb_text := Plain x; lb_font_size := 16;
                           lb_color := if dark_theme s then "#FFFFFF"
                                       else "#000000";
                           lb_bold := true; lb_word_wrap := true |};
                        {| lb_text := Plain y; lb_font_size := 14;
                           lb_color := if dark_theme s then "#FFFFFF"
                                       else "#000000";
                           lb_bold := false; lb_word_wrap := true |};
                        {| lb_text := Attribution d a t; lb_font_size := 12;
                           lb_color := if dark_theme s then "#FFFFFF"
                                       else "#000000";
                           lb_bold := true; lb_word_wrap := false |} ] |} |}.
Proof.
  destruct c; try done. destruct tr; try done. intros _ _.
  eexists _, _. by repeat split.
Qed.


Lemma update_widget_content_ok c s id w l :
  host_widget s = Some id →
  objects s !! id = Some w →
  contentLayout w = Some l →
  is_str (content c) = true →
  is_str (translate c) = true →
  ∃ sa,
    create_scroll_area s (content c) (author c) (title c) (dynasty c)
      (translate c) = inr sa ∧
    update_widget_content c s
      = Ok (record (Log SUCCESS "诗词内容更新成功！")
              (set_objects
                 (<[id := {| contentLayout :=
                               Some {| spacing := 5;
                                       items := [ScrollAreaItem sa] |} |}]>
                    (objects s))
                 (record (change_widget_content WIDGET_CODE WIDGET_NAME
                            WIDGET_NAME)
                    (set_test_widget (Assigned (Some id)) s)))).
Proof.
  intros Hid Hw Hl Hc Ht.
  destruct (create_scroll_area_strings s _ (author c) (title c) (dynasty c)
              _ Hc Ht) as (x & y & Hx & Hy & Hsa).
  eexists. split; [exact Hsa |].
  unfold update_widget_content.
  cbn -[take_all create_scroll_area]. rewrite Hid, Hw, Hl.
  change (create_scroll_area _ ?a ?b ?c ?d ?e)
    with (create_scroll_area s a b c d e).
  rewrite Hsa. unfold addWidget, clear_existing_content, setSpacing.
  cbn -[take_all]. by rewrite take_all_nil.
Qed.


(** X9.  With the widget and its layout there and strings for the two
    text labels, an update puts exactly one new scroll area in the layout,
    whatever the layout held before, sets its spacing to 5, tells the host
    the widget's title, logs success, leaves every other host object and
    the scroll position alone, and leaves a panel that the scroll tick
    finds attached. *)
Theorem update_widget_content_replaces (c : Content) (s : State)
    (id : nat) (w : QWidget) (l : Layout item) :
  host_widget s = Some id →
  objects s !! id = Some w →
  contentLayout w = Some l →
  is_str (content c) = true →
  is_str (translate c) = true →
  ∃ s' sa,
    update_widget_content c s = Ok s' ∧
    create_scroll_area s (content c) (author c) (title c) (dynasty c)
      (translate c) = inr sa ∧
    objects s' !! id
      = Some {| contentLayout :=
                  Some {| spacing := 5; items := [ScrollAreaItem sa] |} |} ∧
    (∀ id', id' ≠ id → objects s' !! id' = objects s !! id') ∧
    journal s'
      = journal s ++
        [change_widget_content WIDGET_CODE WIDGET_NAME WIDGET_NAME;
         Log SUCCESS "诗词内容更新成功！"] ∧
    test_widget s' = Assigned (Some id) ∧
    scroll_position s' = scroll_position s ∧
    attached (panel_extent s) s'.
Proof.
  intros Hid Hw Hl Hc Ht.
  destruct (update_widget_content_ok c s id w l Hid Hw Hl Hc Ht)
    as (sa & Hsa & Hup).
  eexists _, sa. split; [exact Hup |]. split; [exact Hsa |]. cbn.
  split; [apply lookup_insert_eq |].
  split; [intros id' Hne; by apply lookup_insert_ne |].
  split; [by rewrite <- app_assoc |]. split; [done |]. split; [done |].
  destruct (create_scroll_area_strings s _ (author c) (title c) (dynasty c)
              _ Hc Ht) as (x & y & _ & _ & Hsa').
  rewrite Hsa in Hsa'. injection Hsa' as ->.
  eexists id, _, _, _. split; [reflexivity |].
  split; [cbn; apply lookup_insert_eq |]. by repeat split.
Qed.

Lemma update_widget_content_replaces_witness :
  ∃ s' sa,
    update_widget_content error_content loading = Ok s' ∧
    create_scroll_area loading (content error_content)
      (author error_content) (title error_content) (dynasty error_content)
      (translate error_content) = inr sa ∧
    objects s' !! 7%nat
      = Some {| contentLayout :=
                  Some {| spacing := 5; items := [ScrollAreaItem sa] |} |} ∧
    (∀ id', id' ≠ 7%nat → objects s' !! id' = objects loading !! id') ∧
    journal s'
      = journal loading ++
        [change_widget_content WIDGET_CODE WIDGET_NAME WIDGET_NAME;
         Log SUCCESS "诗词内容更新成功！"] ∧
    test_widget s' = Assigned (Some 7%nat) ∧
    scroll_position s' = scroll_position loading ∧
    attached (panel_extent loading) s'.
Proof.
  eapply (update_widget_content_replaces error_content loading 7);
    reflexivity.
Defined.



(** X11.  Of two updates in a row on a panel that is there, the second
    alone decides what the panel holds: nothing of the first is left. *)
Theorem later_update_supersedes (c1 c2 : Content) (s : State)
    (id : nat) (w : QWidget) (l : Layout item) :
  host_widget s = Some id →
  objects s !! id = Some w →
  contentLayout w = Some l →
  is_str (content c1) = true → is_str (translate c1) = true →
  is_str (content c2) = true → is_str (translate c2) = true →
  ∃ s1 s2 s2',
    update_widget_content c1 s = Ok s1 ∧
    update_widget_content c2 s1 = Ok s2 ∧
    update_widget_content c2 s = Ok s2' ∧
    objects s2 = objects s2' ∧
    shown_texts <$> objects s2 !! id
      = Some [Plain (match content c2 with PStr x => x | _ => "" end);
              Plain (match translate c2 with PStr y => y | _ => "" end);
              Attribution (dynasty c2) (author c2) (title c2)].
Proof.
  intros Hid Hw Hl Hc1 Ht1 Hc2 Ht2.
  destruct (update_widget_content_ok c1 s id w l Hid Hw Hl Hc1 Ht1)
    as (sa1 & Hsa1 & Hup1).
  destruct (update_widget_content_ok c2 s id w l Hid Hw Hl Hc2 Ht2)
    as (sa2 & Hsa2 & Hup2).
  eexists _, _, _. split; [exact Hup1 |].
  match goal with
  | |- update_widget_content c2 ?s1 = _ ∧ _ =>
      destruct (update_widget_content_ok c2 s1 id _ _ Hid
                  (lookup_insert_eq _ _ _) eq_refl Hc2 Ht2)
        as (sa2' & Hsa2' & Hup2')
  end.
  change (create_scroll_area _ ?a ?b ?c ?d ?e)
    with (create_scroll_area s a b c d e) in Hsa2'.
  rewrite Hsa2 in Hsa2'. injection Hsa2' as <-.
  split; [exact Hup2' |]. split; [exact Hup2 |]. cbn.
  split; [by rewrite insert_insert_eq |].
  rewrite lookup_insert_eq. cbn.
  destruct (create_scroll_area_strings s _ (author c2) (title c2)
              (dynasty c2) _ Hc2 Ht2) as (x & y & Hx & Hy & Hsa).
  rewrite Hsa2 in Hsa. injection Hsa as ->. by rewrite Hx, Hy.
Qed.

Lemma later_update_supersedes_witness :
  ∃ s1 s2 s2',
    update_widget_content default_content loading = Ok s1 ∧
    update_widget_content error_content s1 = Ok s2 ∧
    update_widget_content error_content loading = Ok s2' ∧
    objects s2 = objects s2' ∧
    shown_texts <$> objects s2 !! 7%nat
      = Some [Plain "数据获取失败"; Plain "请检查网络连接";
              Attribution (PStr "5分钟后重试") (PStr "系统") (PStr "错误")].
Proof.
  eapply (later_update_supersedes default_content error_content loading 7);
    reflexivity.
Defined.

(** ** The scroll tick, again *)

(** X12.  With a panel attached whose bar has maximum [M ≥ 0], a tick
    from any position that is not negative ends in the range [0..M], also
    when the position was beyond [M] because the content got shorter
    since the last tick. *)
Theorem tick_keeps_position_in_range (M : Z) (s : State) :
  attached M s →
  0 ≤ M →
  0 ≤ scroll_position s →
  ∃ s', auto_scroll s = Ok s' ∧
        0 ≤ scroll_position s' ≤ M ∧
        attached M s'.
Proof.
  intros Hatt HM Hpos.
  destruct (auto_scroll_attached M s Hatt) as (s' & Hrun & Hatt' & Hp).
  exists s'. split; [done |]. split; [| done]. rewrite Hp, Z.geb_leb.
  destruct (M <=? scroll_position s) eqn:Hle; [lia |].
  apply Z.leb_gt in Hle. lia.
Qed.

Lemma tick_keeps_position_in_range_witness :
  ∃ s', auto_scroll (set_scroll_position 10 loading) = Ok s' ∧
        0 ≤ scroll_position s' ≤ 3 ∧
        attached 3 s'.
Proof.
  apply (tick_keeps_position_in_range 3 (set_scroll_position 10 loading)).
  - eexists 7%nat, _, _, _. repeat split; reflexivity.
  - lia.
  - cbn. lia.
Defined.

Lemma put_first_texts its sa sa' :
  first_scroll_area its = Some sa →
  sa_content sa' = sa_content sa →
  flat_map item_texts (put_first_scroll_area sa' its)
    = flat_map item_texts its.
Proof.
  intros Hfirst Hcontent.
  induction its as [| [sa0 | name |] its IH]; cbn in *; try done.
  - injection Hfirst as ->. by rewrite Hcontent.
  - by rewrite IH.
  - by rewrite IH.
Qed.

Lemma put_scroll_area_texts w sa sa' :
  findChild_SmoothScrollArea w = Some sa →
  sa_content sa' = sa_content sa →
  shown_texts (put_scroll_area sa' w) = shown_texts w.
Proof.
  unfold findChild_SmoothScrollArea, put_scroll_area, shown_texts.
  destruct (contentLayout w) as [l |]; [| done]. cbn.
  apply put_first_texts.
Qed.

(** X13.  A scroll tick, however it ends, never logs, never schedules
    anything, never starts a worker, never changes [test_widget] or what
    any widget shows: all it can change is [scroll_position] and the
    animation of the bar. *)
Theorem auto_scroll_touches_only_scrolling (s : State) :
  let s' := state_of (auto_scroll s) in
  journal s' = journal s ∧
  single_shots s' = single_shots s ∧
  workers s' = workers s ∧
  test_widget s' = test_widget s ∧
  host_widget s' = host_widget s ∧
  now s' = now s ∧
  (∀ id, shown_texts <$> objects s' !! id = shown_texts <$> objects s !! id).
Proof.
  unfold auto_scroll.
  destruct (test_widget s) as [| [id |]] eqn:Htw; [done | | done].
  destruct (objects s !! id) as [w |] eqn:Hw; [| done].
  destruct (findChild_SmoothScrollArea w) as [sa |] eqn:Hsa; [| done].
  destruct (verticalScrollBar sa) as [sb |]; [| done].
  destruct (scroll_position s >=? sb_maximum sb); cbn;
    (repeat split; try done; intros id';
     destruct (decide (id' = id)) as [-> | Hne];
     [ rewrite lookup_insert_eq, Hw; cbn; f_equal;
       by eapply put_scroll_area_texts
     | by rewrite lookup_insert_ne ]).
Qed.

(** ** What a step can do to the attributes of the plugin *)

Lemma auto_scroll_attrs s :
  test_widget (state_of (auto_scroll s)) = test_widget s ∧
  (scroll_position (state_of (auto_scroll s)) = scroll_position s ∨
   scroll_position (state_of (auto_scroll s)) = 0 ∨
   scroll_position (state_of (auto_scroll s)) = scroll_position s + 1) ∧
  (∀ name s', auto_scroll s = Raised (AttributeError name) s' →
              test_widget s = Unset).
Proof.
  unfold auto_scroll.
  destruct (test_widget s) as [| [id |]] eqn:Htw;
    [by auto | | by repeat split; auto].
  destruct (objects s !! id) as [w |]; [| by repeat split; auto].
  destruct (findChild_SmoothScrollArea w) as [sa |];
    [| by repeat split; auto].
  destruct (verticalScrollBar sa) as [sb |]; [| by repeat split; auto].
  destruct (scroll_position s >=? sb_maximum sb); cbn;
    by repeat split; auto.
Qed.

Lemma update_widget_content_attrs c s :
  scroll_position (state_of (update_widget_content c s)) = scroll_position s ∧
  test_widget (state_of (update_widget_content c s))
    = Assigned (host_widget s) ∧
  (∀ name s', update_widget_content c s ≠ Raised (AttributeError name) s').
Proof.
  unfold update_widget_content. cbn.
  destruct (host_widget s) as [id |]; [| by auto].
  destruct (objects s !! id) as [w |]; [| by auto].
  destruct (contentLayout w) as [l |]; [| by auto].
  destruct (create_scroll_area _ _ _ _ _ _) as [e | sa] eqn:Hsa; cbn;
    [| by auto].
  repeat split; auto. intros name s' [= He _]. subst e.
  unfold create_scroll_area in Hsa.
  destruct (new_QLabel (content c)) as [e1 | x] eqn:H1.
  - injection Hsa as ->. revert H1. unfold new_QLabel.
    by destruct (content c).
  - destruct (new_QLabel (translate c)) as [e2 | y] eqn:H2; [| done].
    injection Hsa as ->. revert H2. unfold new_QLabel.
    by destruct (translate c).
Qed.

Lemma step_attrs s i o :
  step s i = Some o →
  (scroll_position (state_of o) = scroll_position s ∨
   i = ScrollTimeout ∧
   (scroll_position (state_of o) = 0 ∨
    scroll_position (state_of o) = scroll_position s + 1)) ∧
  (test_widget (state_of o) = test_widget s ∨
   ∃ v, test_widget (state_of o) = Assigned v) ∧
  (∀ name s', o = Raised (AttributeError name) s' → test_widget s = Unset).
Proof.
  destruct i as [dt | | | j | | j net]; cbn [step]; intros Hstep.
  - destruct (0 <=? dt); [| done]. injection Hstep as <-. by repeat split; auto.
  - destruct (scroll_due s <=? now s); [| done]. injection Hstep as <-.
    match goal with
    | |- context [auto_scroll ?st] =>
        destruct (auto_scroll_attrs st) as (Htw & Hpos & Hattr)
    end.
    cbn in Htw, Hpos, Hattr. split; [| split].
    + destruct Hpos as [-> | [-> | ->]]; auto.
    + by left.
    + intros name s' Heq. by apply (Hattr name s').
  - destruct (refresh_due s <=? now s); [| done]. injection Hstep as <-.
    by repeat split; auto.
  - destruct (single_shots s !! j) as [[due cb] |]; [| done].
    destruct (due <=? now s); [| done]. injection Hstep as <-.
    destruct cb as [c |]; cbn [call]; [| by repeat split; auto].
    match goal with
    | |- context [update_widget_content c ?st] =>
        destruct (update_widget_content_attrs c st) as (Hpos & Htw & Hattr)
    end.
    cbn in Hpos, Htw. split; [by left |]. split; [right; eauto |].
    intros name s' Heq. by destruct (Hattr name s').
  - injection Hstep as <-. by repeat split; auto.
  - destruct (workers s !! j) as [started |]; [| done].
    destruct (run net) as [tr |]; [| done].
    destruct (started + slept_ms tr <=? now s); [| done].
    unfold deliver in Hstep.
    destruct (signals tr) as [| [| | | data |] [|]]; try done;
      injection Hstep as <-; [| by repeat split; auto].
    unfold handle_success.
    destruct (success_content data) as [e | c] eqn:Hc; cbn; [| by repeat split; auto].
    split; [by left |]. split; [by left |]. intros name s' [= He _].
    subst e. unfold success_content in Hc.
    destruct (str_add _ _) as [e' | t] eqn:Hadd; [| done].
    injection Hc as ->. revert Hadd. unfold str_add.
    by destruct (dict_get _ _ _).
Qed.

(** X14.  Only the scroll timer moves [scroll_position], and along any
    run of the loop it never becomes negative. *)
Theorem scroll_position_never_negative (ins : list input) :
  ∀ (s : State) (o : outcome),
    0 ≤ scroll_position s →
    exec s ins = Some o →
    0 ≤ scroll_position (state_of o).
Proof.
  induction ins as [| i rest IH]; intros s o Hpos Hexec.
  - cbn in Hexec. by injection Hexec as <-.
  - cbn [exec] in Hexec.
    destruct (step s i) as [o1 |] eqn:Hstep; [| done].
    destruct (step_attrs s i o1 Hstep) as (Hsp & _).
    assert (Hpos1 : 0 ≤ scroll_position (state_of o1))
      by (destruct Hsp as [-> | (_ & [-> | ->])]; lia).
    destruct o1 as [s1 | e s1].
    + by apply (IH s1).
    + destruct rest; [| done]. by injection Hexec as <-.
Qed.

Lemma scroll_position_never_negative_witness :
  0 ≤ scroll_position after_two_hours_down.
Proof.
  apply (scroll_position_never_negative two_hours_down fresh
           (Ok after_two_hours_down)).
  - cbn. lia.
  - vm_compute. reflexivity.
Defined.

(** X15.  Once [test_widget] has been assigned it stays assigned through
    every later step of the loop, and no step then ends with
    [AttributeError]: the scroll tick can fail that way only before the
    first display update has run. *)
Theorem attribute_error_only_before_first_update (ins : list input) :
  ∀ (s : State) (o : outcome),
    test_widget s ≠ Unset →
    exec s ins = Some o →
    test_widget (state_of o) ≠ Unset ∧
    ∀ name s', o ≠ Raised (AttributeError name) s'.
Proof.
  induction ins as [| i rest IH]; intros s o Hset Hexec.
  - cbn in Hexec. injection Hexec as <-. by split.
  - cbn [exec] in Hexec.
    destruct (step s i) as [o1 |] eqn:Hstep; [| done].
    destruct (step_attrs s i o1 Hstep) as (_ & Htw & Hattr).
    assert (Hset1 : test_widget (state_of o1) ≠ Unset)
      by (destruct Htw as [-> | [v ->]]; done).
    destruct o1 as [s1 | e s1].
    + by apply (IH s1).
    + destruct rest; [| done]. injection Hexec as <-.
      split; [done |]. intros name s' Heq. by apply Hset, (Hattr name s').
Qed.

Lemma attribute_error_only_before_first_update_witness :
  test_widget after_two_hours_down ≠ Unset ∧
  ∀ name s', Ok after_two_hours_down ≠ Raised (AttributeError name) s'.
Proof.
  apply (attribute_error_only_before_first_update
           (tail two_hours_down) loading (Ok after_two_hours_down)).
  - discriminate.
  - vm_compute. reflexivity.
Defined.

Lemma setValue_spec sb v :
  sb_maximum (setValue sb v) = sb_maximum sb ∧
  sb_value (setValue sb v) = sb_value sb ∧
  (if v =? sb_value sb
   then sb_ani (setValue sb v) = sb_ani sb
   else sb_ani (setValue sb v) = Some (sb_value sb, v)).
Proof. unfold setValue. by destruct (v =? sb_value sb). Qed.

(** X19.  After a tick on an attached panel the bar has been asked to go
    to the new [scroll_position]: either it is there already, and then
    its animation is left alone, or an animation from where it is to the
    new position has replaced whatever was running; its maximum, its
    value and the labels of the scroll area are as before. *)
Theorem tick_sends_bar_to_position (s : State) (id : nat)
    (w : QWidget) (sa : SmoothScrollArea) (sb : SmoothScrollBar) :
  test_widget s = Assigned (Some id) →
  objects s !! id = Some w →
  findChild_SmoothScrollArea w = Some sa →
  verticalScrollBar sa = Some sb →
  ∃ s' w' sa' sb',
    auto_scroll s = Ok s' ∧
    objects s' !! id = Some w' ∧
    findChild_SmoothScrollArea w' = Some sa' ∧
    verticalScrollBar sa' = Some sb' ∧
    sa_content sa' = sa_content sa ∧
    sb_maximum sb' = sb_maximum sb ∧
    sb_value sb' = sb_value sb ∧
    (if scroll_position s' =? sb_value sb
     then sb_ani sb' = sb_ani sb
     else sb_ani sb' = Some (sb_value sb, scroll_position s')).
Proof.
  intros Htw Hw Hsa Hsb. unfold auto_scroll. rewrite Htw, Hw, Hsa, Hsb.
  eexists _, _, _, _. split; [reflexivity |].
  split; [cbn; apply lookup_insert_eq |].
  split; [by eapply findChild_put |].
  split; [reflexivity |]. split; [reflexivity |].
  apply setValue_spec.
Qed.

Lemma tick_sends_bar_to_position_witness :
  ∃ s' w' sa' sb',
    auto_scroll loading = Ok s' ∧
    objects s' !! 7%nat = Some w' ∧
    findChild_SmoothScrollArea w' = Some sa' ∧
    verticalScrollBar sa' = Some sb' ∧
    sb_maximum sb' = 3 ∧
    sb_value sb' = 0 ∧
    sb_ani sb' = Some (0, 1).
Proof.
  edestruct (tick_sends_bar_to_position loading 7)
    as (s' & w' & sa' & sb' & H1 & H2 & H3 & H4 & _ & H5 & H6 & H8);
    [reflexivity | reflexivity | reflexivity | reflexivity |].
  exists s', w', sa', sb'.
  injection H1 as <-. cbn in H8.
  repeat split; try done.
Defined.

(** ** Timing and bookkeeping of fetch cycles *)

(** X16.  A terminal failure cannot be delivered sooner than six seconds
    after its worker was started, and the re-fetch it schedules is the
    last single shot in the queue, due five minutes after the delivery:
    no sooner than 306 seconds after the failed worker started. *)
Theorem refetch_not_before (s s' : State) (i : nat) (net : nat → reply)
    (started : Z) (tr : list event) :
  workers s !! i = Some started →
  run net = Some tr →
  signals tr = [fetch_failed] →
  step s (WorkerDone i net) = Some (Ok s') →
  started + 6000 ≤ now s ∧
  last (single_shots s') = Some (now s + 300000, call_update_poetry) ∧
  started + 306000 ≤ now s + 300000.
Proof.
  intros Hw Hrun Hsig Hstep.
  pose proof (failed_run_sleeps net tr Hrun Hsig) as Hms.
  cbn [step] in Hstep. rewrite Hw, Hrun, Hms in Hstep.
  destruct (started + 6000 <=? now s) eqn:Hle; [| done].
  apply Z.leb_le in Hle. unfold deliver in Hstep. rewrite Hsig in Hstep.
  injection Hstep as <-. split; [done |]. split; [| lia].
  cbn. by rewrite last_snoc.
Qed.

Lemma refetch_not_before_witness :
  0 + 6000 ≤ now waiting ∧
  last (single_shots
          (handle_failure (set_workers (delete 0%nat (workers waiting))
                             waiting)))
    = Some (now waiting + 300000, call_update_poetry) ∧
  0 + 306000 ≤ now waiting + 300000.
Proof.
  apply (refetch_not_before waiting _ 0 net_down 0
           [Request; LogError (ConnectionError "connection refused");
            Sleep 2;
            Request; LogError (ConnectionError "connection refused");
            Sleep 2;
            Request; LogError (ConnectionError "connection refused");
            Sleep 2; fetch_failed]); reflexivity.
Defined.

(** X17.  The number of cycles under way (re-fetches waiting plus workers
    running) changes in two ways only: a refresh tick or [execute] adds
    one, the delivery of a success takes one away.  A failure, a re-fetch
    that fires, a display update, a scroll tick and the passing of time
    leave it as it is: a cycle that keeps failing is never given up. *)
Theorem cycles_conserved (s s' : State) (i : input) :
  step s i = Some (Ok s') →
  (cycles s' + (if delivers_success i then 1 else 0)
   = cycles s + (if starts_cycle i then 1 else 0))%nat.
Proof.
  unfold cycles.
  destruct i as [dt | | | j | | j net];
    cbn [step starts_cycle delivers_success]; intros Hstep.
  - destruct (0 <=? dt); [| done]. injection Hstep as <-.
    unfold pending_retries. cbn. lia.
  - destruct (scroll_due s <=? now s); [| done].
    injection Hstep as Hstep.
    match type of Hstep with
    | auto_scroll ?st = _ => destruct (auto_scroll_frame st) as [Hs Hw]
    end.
    rewrite Hstep in Hs, Hw. cbn in Hs, Hw.
    unfold pending_retries. rewrite Hs, Hw. lia.
  - destruct (refresh_due s <=? now s); [| done]. injection Hstep as <-.
    match goal with
    | |- context [update_poetry ?st] =>
        destruct (update_poetry_pending st) as [-> ->]
    end.
    rewrite length_app. unfold pending_retries. cbn. lia.
  - destruct (single_shots s !! j) as [[due cb] |] eqn:Hj; [| done].
    destruct (due <=? now s); [| done]. injection Hstep as Hstep.
    pose proof (pending_delete _ _ _ Hj) as Hdel.
    destruct cb as [c |]; cbn [call] in Hstep.
    + match type of Hstep with
      | update_widget_content _ ?st = _ =>
          destruct (update_widget_content_frame c st) as [Hs Hw]
      end.
      rewrite Hstep in Hs, Hw. cbn in Hs, Hw, Hdel.
      unfold pending_retries. rewrite Hs, Hw. lia.
    + injection Hstep as <-.
      match goal with
      | |- context [update_poetry ?st] =>
          destruct (update_poetry_pending st) as [-> ->]
      end.
      rewrite length_app. unfold pending_retries. cbn in *. lia.
  - injection Hstep as <-. unfold execute.
    destruct (update_poetry_pending s) as [-> ->].
    rewrite length_app. cbn. lia.
  - destruct (workers s !! j) as [started |] eqn:Hj; [| done].
    destruct (run net) as [tr |]; [| done].
    destruct (started + slept_ms tr <=? now s); [| done].
    pose proof (length_delete_some _ _ _ Hj) as Hlen.
    unfold deliver in Hstep.
    destruct (signals tr) as [| [| | | data |] [|]]; try done.
    + unfold handle_success in Hstep.
      destruct (success_content data) as [e | c]; [done |].
      injection Hstep as <-. unfold pending_retries. cbn.
      rewrite pending_app. cbn. lia.
    + injection Hstep as <-.
      match goal with
      | |- context [handle_failure ?st] =>
          destruct (handle_failure_pending st) as [-> ->]
      end.
      unfold pending_retries. cbn. lia.
Qed.

Lemma cycles_conserved_witness :
  (cycles (handle_failure (set_workers (delete 0%nat (workers waiting))
                             waiting)) + 0
   = cycles waiting + 0)%nat.
Proof.
  apply (cycles_conserved waiting _ (WorkerDone 0 net_down)). reflexivity.
Defined.

(** X18.  From the worker to the panel: when a worker's success is
    delivered with a payload whose fields, where present, are strings, and
    the display update it scheduled then runs on a widget that is there,
    the panel shows the poem, the prefixed translation and the
    attribution, with the fallback texts for what the payload lacks. *)
Theorem poem_reaches_panel (s : State) (i : nat) (net : nat → reply)
    (started : Z) (tr : list event) (data : gmap string pyval)
    (quotes author title dynasty translate : option string)
    (id : nat) (w : QWidget) (l : Layout item) :
  workers s !! i = Some started →
  run net = Some tr →
  signals tr = [fetch_success data] →
  started + slept_ms tr ≤ now s →
  data !! "quotes" = PStr <$> quotes →
  data !! "author" = PStr <$> author →
  data !! "title" = PStr <$> title →
  data !! "dynasty" = PStr <$> dynasty →
  data !! "translate" = PStr <$> translate →
  host_widget s = Some id →
  objects s !! id = Some w →
  contentLayout w = Some l →
  ∃ s1 s2,
    exec s [WorkerDone i net; SingleShot (length (single_shots s))]
      = Some (Ok s2) ∧
    step s (WorkerDone i net) = Some (Ok s1) ∧
    workers s1 = delete i (workers s) ∧
    pending_retries s1 = pending_retries s ∧
    shown_texts <$> objects s2 !! id
      = Some [Plain (default "无法获取诗词内容" quotes);
              Plain ("翻译：" +:+ default "暂无翻译" translate);
              Attribution (PStr (default "未知朝代" dynasty))
                (PStr (default "未知作者" author))
                (PStr (default "未知标题" title))].
Proof.
  intros Hw Hrun Hsig Hnow Hq Ha Ht Hd Htr Hid Hobj Hl.
  assert (Hc : success_content data
            = inr {| content := PStr (default "无法获取诗词内容" quotes);
                     Plugin.author := PStr (default "未知作者" author);
                     Plugin.title := PStr (default "未知标题" title);
                     Plugin.dynasty := PStr (default "未知朝代" dynasty);
                     Plugin.translate :=
                       PStr ("翻译：" +:+ default "暂无翻译" translate) |}).
  { unfold success_content, dict_get. rewrite Hq, Ha, Ht, Hd, Htr.
    by destruct quotes, author, title, dynasty, translate. }
  assert (Hstep : step s (WorkerDone i net)
            = Some (handle_success data
                      (set_workers (delete i (workers s)) s))).
  { cbn [step]. rewrite Hw, Hrun. apply Z.leb_le in Hnow. rewrite Hnow.
    unfold deliver. by rewrite Hsig. }
  unfold handle_success in Hstep. rewrite Hc in Hstep.
  match type of Hstep with
  | _ = Some (Ok ?st1) =>
      set (s1 := st1) in *;
      assert (Hfire : step s1 (SingleShot (length (single_shots s)))
                = Some (call (call_update_widget_content
                                {| content :=
                                     PStr (default "无法获取诗词内容" quotes);
                                   Plugin.author :=
                                     PStr (default "未知作者" author);
                                   Plugin.title :=
                                     PStr (default "未知标题" title);
                                   Plugin.dynasty :=
                                     PStr (default "未知朝代" dynasty);
                                   Plugin.translate :=
                                     PStr ("翻译：" +:+
                                           default "暂无翻译" translate) |})
                          (set_single_shots
                             (delete (length (single_shots s))
                                (single_shots s1)) s1)))
        by (eapply fire_step;
            [cbn; rewrite Z.add_0_r; by apply list_lookup_middle
            | cbn; lia])
  end.
  cbn [call] in Hfire.
  match type of Hfire with
  | _ = Some (update_widget_content ?c ?st) =>
      destruct (update_widget_content_shows c st id w l _ _ Hid Hobj Hl
                  eq_refl eq_refl)
        as (s2 & w2 & Hup & Hw2 & Htexts & _)
  end.
  rewrite Hup in Hfire.
  exists s1, s2. cbn [exec]. rewrite Hstep, Hfire.
  split; [reflexivity |]. split; [reflexivity |].
  split; [done |]. split.
  - unfold pending_retries. cbn. rewrite pending_app. cbn. lia.
  - rewrite Hw2. cbn [fmap option_fmap option_map]. by rewrite Htexts.
Qed.

Lemma poem_reaches_panel_witness :
  ∃ s1 s2,
    exec (set_now 4000 loading) [WorkerDone 0 net_flaky; SingleShot 0]
      = Some (Ok s2) ∧
    step (set_now 4000 loading) (WorkerDone 0 net_flaky) = Some (Ok s1) ∧
    workers s1 = [] ∧
    pending_retries s1 = 0%nat ∧
    shown_texts <$> objects s2 !! 7%nat
      = Some [Plain "床前明月光"; Plain "翻译：明亮的月光洒在床前";
              Attribution (PStr "唐") (PStr "李白") (PStr "静夜思")].
Proof.
  eapply (poem_reaches_panel (set_now 4000 loading) 0 net_flaky 0
           [Request; LogError (ConnectionError "timed out"); Sleep 2;
            Request; LogError (HTTPError 503); Sleep 2;
            Request; fetch_success poem] poem
           (Some "床前明月光") (Some "李白") (Some "静夜思") (Some "唐")
           (Some "明亮的月光洒在床前") 7); reflexivity.
Defined.

End PluginMore.
